(** * Cruise MLP evaluator: feature extraction and evaluation loop

    A shallow embedding of
    [modules/prediction/evaluator/vehicle/cruise_mlp_evaluator.cc]
    together with the properties of its feature blocks.

    C++ [double] values are kept abstract: every function is written over
    a type [D] with the operations the source applies to doubles
    ([DoubleOps]).  The structural results (which branch runs, how long a
    block is, where a value lands) hold for every interpretation of those
    operations; the geometric round trip is proved for the instance over
    the real numbers, and the concrete runs use exact rationals. *)

From Stdlib Require Import ZArith List Bool Lia QArith Qround Reals Lra.
From stdpp Require Import base option list.
Import ListNotations.

Set Implicit Arguments.
Unset Strict Implicit.

(** ** Arithmetic on doubles *)

(** The operations of the source on [double]: conversions from integers
    (also used for literals), the four operations, unary minus, the strict
    comparison, [std::numeric_limits<double>::epsilon()], the narrowing cast
    to [float], and the library functions [std::sqrt], [std::atan2],
    [std::cos], [std::sin] and [common::math::NormalizeAngle]. *)
Class DoubleOps (D : Type) := {
  d_of_Z : Z -> D;
  dadd : D -> D -> D;
  dsub : D -> D -> D;
  dmul : D -> D -> D;
  ddiv : D -> D -> D;
  dneg : D -> D;
  dlt : D -> D -> bool;
  depsilon : D;
  dfloat : D -> D;
  dsqrt : D -> D;
  datan2 : D -> D -> D;
  dcos : D -> D;
  dsin : D -> D;
  NormalizeAngle : D -> D
}.

Declare Scope double_scope.
Delimit Scope double_scope with dbl.
Notation "x + y" := (dadd x y) : double_scope.
Notation "x - y" := (dsub x y) : double_scope.
Notation "x * y" := (dmul x y) : double_scope.
Notation "x / y" := (ddiv x y) : double_scope.
Notation "- x" := (dneg x) : double_scope.
Notation "x <? y" := (dlt x y) : double_scope.
Notation "x >? y" := (dlt y x) : double_scope.

(** ** Data model (protobuf messages read and written by the evaluator) *)

Section DataModel.
Variable D : Type.

Record Point := mkPoint { pt_x : D; pt_y : D }.

(** [LaneFeature]: lane-relative attributes of one observation. *)
Record LaneFeature := mkLaneFeature {
  angle_diff : D;
  lane_l : D;
  dist_to_left_boundary : D;
  dist_to_right_boundary : D;
  lane_turn_type : Z
}.

Record LanePoint := mkLanePoint {
  lp_position : option Point;
  lp_heading : D;
  kappa : D
}.

Record LaneSegment := mkLaneSegment { lane_point : list LanePoint }.

Record NearbyObstacle := mkNearbyObstacle {
  no_id : option Z;
  no_s : D;
  no_l : D
}.

(** [probability] and [time_to_lane_center] are optional fields: [None]
    until a setter runs.  [mlp_features] is the repeated field of the
    sequence's [features] record. *)
Record LaneSequence := mkLaneSequence {
  lane_segment : list LaneSegment;
  vehicle_on_lane : bool;
  nearby_obstacle : list NearbyObstacle;
  probability : option D;
  time_to_lane_center : option D;
  mlp_features : list D
}.

Record LaneGraph := mkLaneGraph { lane_sequence : list LaneSequence }.

Record Lane := mkLane {
  lane_feature : option LaneFeature;
  lane_graph : option LaneGraph
}.

(** [Feature]: one observation of an obstacle. *)
Record Feature := mkFeature {
  IsInitialized : bool;
  timestamp : D;
  position : option Point;
  velocity : option Point;
  acceleration : option Point;
  velocity_heading : option D;
  speed : D;
  length_ : D;
  lane : option Lane
}.

(** Modelled from the spec: the [Obstacle] class is declared outside this
    file.  An obstacle is an identifier and an ordered history of
    observations, most recent first, whose element 0 is the latest one;
    [timestamp()] is the latest observation's. *)
Record Obstacle := mkObstacle {
  id : Z;
  latest_feature : Feature;
  older_features : list Feature
}.

Definition feature_history (o : Obstacle) : list Feature :=
  latest_feature o :: older_features o.

Definition history_size (o : Obstacle) : nat := length (feature_history o).

Definition obstacle_timestamp (o : Obstacle) : D := timestamp (latest_feature o).

(** Configuration: the gflags the evaluator reads, and the two size
    constants of its header that the source does not fix here. *)
Record Config := mkConfig {
  FLAGS_cruise_historical_frame_length : nat;
  FLAGS_prediction_trajectory_time_length : D;
  FLAGS_prediction_offline_mode : bool;
  FLAGS_default_s_if_no_obstacle_in_lane_sequence : D;
  FLAGS_default_l_if_no_obstacle_in_lane_sequence : D;
  FLAGS_double_precision : D;
  OBSTACLE_FEATURE_SIZE : nat;
  LANE_POINTS_SIZE : nat
}.
End DataModel.

Arguments mkLaneSegment {D} _.
Arguments mkLaneGraph {D} _.

(** Modelled from the spec: the header constants [INTERACTION_FEATURE_SIZE]
    and [SINGLE_LANE_FEATURE_SIZE] are missing from the source; the feature
    vector is laid out as interaction-block(8) and lane points times 4. *)
Definition INTERACTION_FEATURE_SIZE : nat := 8.
Definition SINGLE_LANE_FEATURE_SIZE : nat := 4.

(** ** Numeric helpers *)

Section Helpers.
Context {D : Type} {ops : DoubleOps D}.
Local Open Scope double_scope.

Definition d0 : D := d_of_Z 0.

(** Accessors of an optional message return the default value when the
    field is absent. *)
Definition point_x (p : option (Point D)) : D :=
  match p with Some q => pt_x q | None => d0 end.
Definition point_y (p : option (Point D)) : D :=
  match p with Some q => pt_y q | None => d0 end.
Definition velocity_heading_value (f : Feature D) : D :=
  match velocity_heading f with Some h => h | None => d0 end.

(** Element access of a vector at an index known to be in range. *)
Definition at_ {A} (dflt : A) (l : list A) (i : nat) : A :=
  match l !! i with Some v => v | None => dflt end.

Definition front {A} (dflt : A) (l : list A) : A := at_ dflt l 0.
Definition back {A} (dflt : A) (l : list A) : A := at_ dflt l (length l - 1).

(** The elements [nums[start]], ..., [nums[min end (size-1)]]. *)
Definition mean_range (nums : list D) (start end_ : nat) : list D :=
  take (S end_ - start) (drop start nums).

Definition ComputeMean (nums : list D) (start end_ : nat) : D :=
  let visited := mean_range nums start end_ in
  let count := length visited in
  let sum := fold_left dadd visited d0 in
  if (count =? 0)%nat then d0 else sum / d_of_Z (Z.of_nat count).

(** A CHECK that fails aborts the process: [None]. *)
Definition VectorToMatrixXf_row (nums : list D) (start_index end_index : nat)
  : option (list (list D)) :=
  if negb (start_index <? end_index)%nat then None
  else if negb (end_index <=? length nums)%nat then None
  else Some [map dfloat (take (end_index - start_index) (drop start_index nums))].

Fixpoint rows_of (cells : list D) (num_row num_col : nat) : list (list D) :=
  match num_row with
  | O => []
  | S r => take num_col cells :: rows_of (drop num_col cells) r num_col
  end.

Definition VectorToMatrixXf (nums : list D) (start_index end_index : nat)
    (output_num_row output_num_col : nat) : option (list (list D)) :=
  if negb (start_index <? end_index)%nat then None
  else if negb (end_index <=? length nums)%nat then None
  else if negb (end_index - start_index =? output_num_row * output_num_col)%nat
  then None
  else Some (rows_of
               (map dfloat (take (end_index - start_index) (drop start_index nums)))
               output_num_row output_num_col).

Definition WorldCoordToObjCoord (input_world_coord obj_world_coord : D * D)
    (obj_world_angle : D) : D * D :=
  let x_diff := fst input_world_coord - fst obj_world_coord in
  let y_diff := snd input_world_coord - snd obj_world_coord in
  let rho := dsqrt (x_diff * x_diff + y_diff * y_diff) in
  let theta := datan2 y_diff x_diff - obj_world_angle in
  (dcos theta * rho, dsin theta * rho).

Definition WorldAngleToObjAngle (input_world_angle obj_world_angle : D) : D :=
  NormalizeAngle (input_world_angle - obj_world_angle).
End Helpers.

(** ** Obstacle features: the history walk *)

Section ObstacleFeatures.
Context {D : Type} {ops : DoubleOps D}.
Variable cfg : Config D.
Local Open Scope double_scope.

Local Abbreviation W := (FLAGS_cruise_historical_frame_length cfg).

(** The vectors filled from the observations that carry a lane feature
    (the "old 23 features"), most recent first. *)
Record LaneSamples := mkLaneSamples {
  thetas : list D;
  lane_ls : list D;
  dist_lbs : list D;
  dist_rbs : list D;
  lane_types : list Z;
  speeds : list D;
  timestamps : list D;
  count : Z
}.

(** The per-frame vectors in the obstacle's own frame, each of size [W]. *)
Record FrameWindow := mkFrameWindow {
  has_history : list Z;
  pos_history : list (D * D);
  vel_history : list (D * D);
  acc_history : list (D * D);
  vel_heading_history : list D;
  vel_heading_changing_rate_history : list D;
  prev_timestamp : D
}.

Definition init_samples : LaneSamples :=
  mkLaneSamples [] [] [] [] [] [] [] 0.

Definition init_window (obs_curr_feature : Feature D) : FrameWindow :=
  mkFrameWindow (replicate W 1%Z)
                (replicate W (d0, d0)) (replicate W (d0, d0))
                (replicate W (d0, d0)) (replicate W d0) (replicate W d0)
                (timestamp obs_curr_feature).

Definition clear_has (i : nat) (w : FrameWindow) : FrameWindow :=
  mkFrameWindow (<[i := 0%Z]> (has_history w)) (pos_history w) (vel_history w)
                (acc_history w) (vel_heading_history w)
                (vel_heading_changing_rate_history w) (prev_timestamp w).
Definition set_pos (i : nat) (v : D * D) (w : FrameWindow) : FrameWindow :=
  mkFrameWindow (has_history w) (<[i := v]> (pos_history w)) (vel_history w)
                (acc_history w) (vel_heading_history w)
                (vel_heading_changing_rate_history w) (prev_timestamp w).
Definition set_vel (i : nat) (v : D * D) (w : FrameWindow) : FrameWindow :=
  mkFrameWindow (has_history w) (pos_history w) (<[i := v]> (vel_history w))
                (acc_history w) (vel_heading_history w)
                (vel_heading_changing_rate_history w) (prev_timestamp w).
Definition set_acc (i : nat) (v : D * D) (w : FrameWindow) : FrameWindow :=
  mkFrameWindow (has_history w) (pos_history w) (vel_history w)
                (<[i := v]> (acc_history w)) (vel_heading_history w)
                (vel_heading_changing_rate_history w) (prev_timestamp w).
Definition set_vel_heading (i : nat) (v : D) (w : FrameWindow) : FrameWindow :=
  mkFrameWindow (has_history w) (pos_history w) (vel_history w)
                (acc_history w) (<[i := v]> (vel_heading_history w))
                (vel_heading_changing_rate_history w) (prev_timestamp w).
Definition set_rate (i : nat) (v : D) (t : D) (w : FrameWindow) : FrameWindow :=
  mkFrameWindow (has_history w) (pos_history w) (vel_history w)
                (acc_history w) (vel_heading_history w)
                (<[i := v]> (vel_heading_changing_rate_history w)) t.

(** The lane feature read by the "old 23 features" branch:
    [feature.has_lane() && feature.lane().has_lane_feature()]. *)
Definition lane_feature_of (f : Feature D) : option (LaneFeature D) :=
  match lane f with Some ln => lane_feature ln | None => None end.

Definition push_samples (f : Feature D) (s : LaneSamples) : LaneSamples :=
  match lane_feature_of f with
  | Some lf =>
      mkLaneSamples (thetas s ++ [angle_diff lf]) (lane_ls s ++ [lane_l lf])
                    (dist_lbs s ++ [dist_to_left_boundary lf])
                    (dist_rbs s ++ [dist_to_right_boundary lf])
                    (lane_types s ++ [lane_turn_type lf])
                    (speeds s ++ [speed f]) (timestamps s ++ [timestamp f])
                    (count s + 1)
  | None => s
  end.

(** A free vector is brought into the local frame as the difference of
    the transformed end point and the transformed origin. *)
Definition free_vector_to_obj (v : option (Point D)) (obs_curr_pos : D * D)
    (obs_curr_heading : D) : D * D :=
  let v_end := WorldCoordToObjCoord (point_x v, point_y v)
                                    obs_curr_pos obs_curr_heading in
  let v_begin := WorldCoordToObjCoord (d0, d0) obs_curr_pos obs_curr_heading in
  (fst v_end - fst v_begin, snd v_end - snd v_begin).

(** Lines 314-362: the part of the loop body that fills frame [i]. *)
Definition fill_frame (obs_curr_pos : D * D) (obs_curr_heading : D)
    (f : Feature D) (i : nat) (w : FrameWindow) : FrameWindow :=
  if (W <=? i)%nat then w
  else if negb (i =? 0)%nat && (at_ 1%Z (has_history w) (i - 1) =? 0)%Z
  then clear_has i w
  else
    let w1 := if bool_decide (is_Some (position f))
              then set_pos i (WorldCoordToObjCoord
                                (point_x (position f), point_y (position f))
                                obs_curr_pos obs_curr_heading) w
              else clear_has i w in
    let w2 := if bool_decide (is_Some (velocity f))
              then set_vel i (free_vector_to_obj (velocity f) obs_curr_pos
                                                 obs_curr_heading) w1
              else clear_has i w1 in
    let w3 := if bool_decide (is_Some (acceleration f))
              then set_acc i (free_vector_to_obj (acceleration f) obs_curr_pos
                                                 obs_curr_heading) w2
              else clear_has i w2 in
    if bool_decide (is_Some (velocity_heading f))
    then
      let w4 := set_vel_heading i
                  (WorldAngleToObjAngle (velocity_heading_value f)
                                        obs_curr_heading) w3 in
      if negb (i =? 0)%nat
      then set_rate i
             ((at_ d0 (vel_heading_history w4) (i - 1)
               - at_ d0 (vel_heading_history w4) i)
              / (FLAGS_double_precision cfg + timestamp f - prev_timestamp w4))
             (timestamp f) w4
      else w4
    else clear_has i w3.

(** Lines 286-363: the walk over the history, most recent first.  An
    uninitialized observation is skipped ([continue]); the first one older
    than the start time ends the walk ([break]). *)
Fixpoint history_loop (start_time : D) (obs_curr_pos : D * D)
    (obs_curr_heading : D) (fs : list (Feature D)) (i : nat)
    (st : LaneSamples * FrameWindow) : LaneSamples * FrameWindow :=
  match fs with
  | [] => st
  | f :: rest =>
      if negb (IsInitialized f)
      then history_loop start_time obs_curr_pos obs_curr_heading rest (S i) st
      else if timestamp f <? start_time then st
      else history_loop start_time obs_curr_pos obs_curr_heading rest (S i)
             (push_samples f (fst st),
              fill_frame obs_curr_pos obs_curr_heading f i (snd st))
  end.

Definition scan_history (o : Obstacle D) : LaneSamples * FrameWindow :=
  let obs_curr_feature := latest_feature o in
  let obs_curr_heading := velocity_heading_value obs_curr_feature in
  let obs_curr_pos := (point_x (position obs_curr_feature),
                       point_y (position obs_curr_feature)) in
  let obs_feature_history_start_time :=
    obstacle_timestamp o - FLAGS_prediction_trajectory_time_length cfg in
  history_loop obs_feature_history_start_time obs_curr_pos obs_curr_heading
               (feature_history o) 0
               (init_samples, init_window obs_curr_feature).

(** *** The 23 summary values (lines 371-468) *)

Definition curr_size : nat := 5.

Definition delta_t_of (s : LaneSamples) : D :=
  if (1 <? length (timestamps s))%nat
  then (front d0 (timestamps s) - back d0 (timestamps s))
       / d_of_Z (Z.of_nat (length (timestamps s) - 1))
  else d0.

(** [(hist_size >= 2 * curr_size) ? curr - prev : 0.0], where [hist_size]
    is the obstacle's [history_size()]. *)
Definition recent_delta (hist_size : nat) (samples : list D) : D :=
  let curr := ComputeMean samples 0 (curr_size - 1) in
  let prev := ComputeMean samples curr_size (2 * curr_size - 1) in
  if (2 * curr_size <=? hist_size)%nat then curr - prev else d0.

Definition delta_rate (delta_t delta : D) : D :=
  if delta_t >? depsilon
  then delta / (delta_t * d_of_Z (Z.of_nat curr_size))
  else d0.

Definition boundary_rate (s : LaneSamples) (dists : list D) : D :=
  let time_diff := front d0 (timestamps s) - back d0 (timestamps s) in
  if (1 <? length (timestamps s))%nat
  then (front d0 dists - back d0 dists) / time_diff
  else d0.

Definition boundary_rate_curr (hist_size : nat) (delta_t : D) (dists : list D)
  : D :=
  if (2 * curr_size <=? hist_size)%nat && (delta_t >? depsilon)
  then
    let dist_curr := ComputeMean dists 0 (curr_size - 1) in
    let dist_prev := ComputeMean dists curr_size (2 * curr_size - 1) in
    (dist_curr - dist_prev) / (d_of_Z (Z.of_nat curr_size) * delta_t)
  else d0.

Definition acc_jerk (s : LaneSamples) (delta_t : D) : D * D :=
  if (3 * curr_size <=? length (speeds s))%nat && (delta_t >? depsilon)
  then
    let speed_1st_recent := ComputeMean (speeds s) 0 (curr_size - 1) in
    let speed_2nd_recent :=
      ComputeMean (speeds s) curr_size (2 * curr_size - 1) in
    let speed_3rd_recent :=
      ComputeMean (speeds s) (2 * curr_size) (3 * curr_size - 1) in
    ((speed_1st_recent - speed_2nd_recent)
     / (d_of_Z (Z.of_nat curr_size) * delta_t),
     (speed_1st_recent - d_of_Z 2 * speed_2nd_recent + speed_3rd_recent)
     / (d_of_Z (Z.of_nat (curr_size * curr_size)) * delta_t * delta_t))
  else (d0, d0).

Definition one_hot (lane_type expected : Z) : D :=
  if (lane_type =? expected)%Z then d_of_Z 1 else d0.

Definition summary_features (hist_size : nat) (s : LaneSamples) : list D :=
  let theta_mean := ComputeMean (thetas s) 0 (hist_size - 1) in
  let theta_filtered := ComputeMean (thetas s) 0 (curr_size - 1) in
  let lane_l_mean := ComputeMean (lane_ls s) 0 (hist_size - 1) in
  let lane_l_filtered := ComputeMean (lane_ls s) 0 (curr_size - 1) in
  let speed_mean := ComputeMean (speeds s) 0 (hist_size - 1) in
  let dist_lb_rate := boundary_rate s (dist_lbs s) in
  let dist_rb_rate := boundary_rate s (dist_rbs s) in
  let delta_t := delta_t_of s in
  let angle_diff := recent_delta hist_size (thetas s) in
  let lane_l_diff := recent_delta hist_size (lane_ls s) in
  let angle_diff_rate := delta_rate delta_t angle_diff in
  let lane_l_diff_rate := delta_rate delta_t lane_l_diff in
  let acc := fst (acc_jerk s delta_t) in
  let jerk := snd (acc_jerk s delta_t) in
  let dist_lb_rate_curr := boundary_rate_curr hist_size delta_t (dist_lbs s) in
  let dist_rb_rate_curr := boundary_rate_curr hist_size delta_t (dist_rbs s) in
  [ theta_filtered; theta_mean; theta_filtered - theta_mean;
    angle_diff; angle_diff_rate;
    lane_l_filtered; lane_l_mean; lane_l_filtered - lane_l_mean;
    lane_l_diff; lane_l_diff_rate;
    speed_mean; acc; jerk;
    front d0 (dist_lbs s); dist_lb_rate; dist_lb_rate_curr;
    front d0 (dist_rbs s); dist_rb_rate; dist_rb_rate_curr;
    one_hot (front 0%Z (lane_types s)) 0; one_hot (front 0%Z (lane_types s)) 1;
    one_hot (front 0%Z (lane_types s)) 2; one_hot (front 0%Z (lane_types s)) 3 ].

(** *** The flattened window (lines 508-518) *)

Definition frame_values (w : FrameWindow) (i : nat) : list D :=
  [ d_of_Z (at_ 1%Z (has_history w) i);
    fst (at_ (d0, d0) (pos_history w) i); snd (at_ (d0, d0) (pos_history w) i);
    fst (at_ (d0, d0) (vel_history w) i); snd (at_ (d0, d0) (vel_history w) i);
    fst (at_ (d0, d0) (acc_history w) i); snd (at_ (d0, d0) (acc_history w) i);
    at_ d0 (vel_heading_history w) i;
    at_ d0 (vel_heading_changing_rate_history w) i ].

Definition window_features (w : FrameWindow) : list D :=
  flat_map (frame_values w) (seq 0 W).

Definition SetObstacleFeatureValues (o : Obstacle D) : list D :=
  let st := scan_history o in
  if (count (fst st) <=? 0)%Z then []
  else summary_features (history_size o) (fst st) ++ window_features (snd st).
End ObstacleFeatures.

Arguments LaneSamples : clear implicits.
Arguments FrameWindow : clear implicits.

(** ** Interaction features *)

Section InteractionFeatures.
Context {D : Type} {ops : DoubleOps D}.
Variable cfg : Config D.
(** [ObstaclesContainer::GetObstacle]: the obstacle stored under an id, or
    a null pointer. *)
Variable GetObstacle : Z -> option (Obstacle D).
Local Open Scope double_scope.

Definition nearby_id (n : NearbyObstacle D) : Z :=
  match no_id n with Some i => i | None => 0%Z end.

Definition init_forward : NearbyObstacle D :=
  mkNearbyObstacle None (FLAGS_default_s_if_no_obstacle_in_lane_sequence cfg)
                   (FLAGS_default_l_if_no_obstacle_in_lane_sequence cfg).
Definition init_backward : NearbyObstacle D :=
  mkNearbyObstacle None (- FLAGS_default_s_if_no_obstacle_in_lane_sequence cfg)
                   (FLAGS_default_l_if_no_obstacle_in_lane_sequence cfg).

(** Copies id, s and l of the scanned entry ([set_id] sets the id even
    when the entry carries none). *)
Definition take_over (n : NearbyObstacle D) : NearbyObstacle D :=
  mkNearbyObstacle (Some (nearby_id n)) (no_s n) (no_l n).

(** Body of the loop of lines 533-547 on the pair (forward, backward). *)
Definition nearest_step (fb : NearbyObstacle D * NearbyObstacle D)
    (n : NearbyObstacle D) : NearbyObstacle D * NearbyObstacle D :=
  if no_s n <? d0
  then (if no_s n >? no_s (snd fb) then (fst fb, take_over n) else fb)
  else (if no_s n <? no_s (fst fb) then (take_over n, snd fb) else fb).

Definition nearest_obstacles (l : list (NearbyObstacle D))
  : NearbyObstacle D * NearbyObstacle D :=
  fold_left nearest_step l (init_forward, init_backward).

(** The four values pushed for one direction; dereferencing the null
    pointer of a failed lookup is fatal ([None]). *)
Definition neighbour_values (n : NearbyObstacle D) : option (list D) :=
  match no_id n with
  | None => Some [no_s n; no_l n; d0; d0]
  | Some i =>
      match GetObstacle i with
      | None => None
      | Some obs =>
          Some [no_s n; no_l n; length_ (latest_feature obs);
                speed (latest_feature obs)]
      end
  end.

Definition SetInteractionFeatureValues (lane_sequence_ptr : LaneSequence D)
  : option (list D) :=
  let fb := nearest_obstacles (nearby_obstacle lane_sequence_ptr) in
  match neighbour_values (fst fb) with
  | None => None
  | Some fwd =>
      match neighbour_values (snd fb) with
      | None => None
      | Some bwd => Some (fwd ++ bwd)
      end
  end.
End InteractionFeatures.

(** ** Lane features *)

Section LaneFeatures.
Context {D : Type} {ops : DoubleOps D}.
Variable cfg : Config D.
Local Open Scope double_scope.

Definition lane_target : nat := SINGLE_LANE_FEATURE_SIZE * LANE_POINTS_SIZE cfg.

Definition lane_point_values (feature : Feature D) (heading : D)
    (lane_point : LanePoint D) : list D :=
  let relative_s_l :=
    WorldCoordToObjCoord
      (point_x (lp_position lane_point), point_y (lp_position lane_point))
      (point_x (position feature), point_y (position feature)) heading in
  let relative_ang := WorldAngleToObjAngle (lp_heading lane_point) heading in
  [snd relative_s_l; fst relative_s_l; relative_ang; kappa lane_point].

(** Inner loop (lines 602-625): [break] once the block is full, [continue]
    on a point without position. *)
Fixpoint lane_point_loop (feature : Feature D) (heading : D)
    (pts : list (LanePoint D)) (feature_values : list D) : list D :=
  match pts with
  | [] => feature_values
  | lane_point :: rest =>
      if (lane_target <=? length feature_values)%nat then feature_values
      else if negb (bool_decide (is_Some (lp_position lane_point)))
      then lane_point_loop feature heading rest feature_values
      else lane_point_loop feature heading rest
             (feature_values ++ lane_point_values feature heading lane_point)
  end.

(** Outer loop (lines 597-626). *)
Fixpoint lane_segment_loop (feature : Feature D) (heading : D)
    (segs : list (LaneSegment D)) (feature_values : list D) : list D :=
  match segs with
  | [] => feature_values
  | lane_segment :: rest =>
      if (lane_target <=? length feature_values)%nat then feature_values
      else lane_segment_loop feature heading rest
             (lane_point_loop feature heading (lane_point lane_segment)
                              feature_values)
  end.

(** One round of the extrapolation loop (lines 631-642). *)
Definition extrapolate_once (feature_values : list D) : list D :=
  let size := length feature_values in
  let relative_l_new := d_of_Z 2 * at_ d0 feature_values (size - 5)
                        - at_ d0 feature_values (size - 10) in
  let relative_s_new := d_of_Z 2 * at_ d0 feature_values (size - 4)
                        - at_ d0 feature_values (size - 9) in
  let relative_ang_new := at_ d0 feature_values (size - 3) in
  feature_values ++ [relative_l_new; relative_s_new; relative_ang_new; d0].

(** The [while] loop of lines 630-645; every round adds four values, so
    [fuel] rounds suffice whenever [lane_target <= 4 * fuel]. *)
Fixpoint extrapolate_loop (fuel : nat) (feature_values : list D) : list D :=
  match fuel with
  | O => feature_values
  | S fuel' =>
      if (10 <=? length feature_values)%nat
         && (length feature_values <? lane_target)%nat
      then extrapolate_loop fuel' (extrapolate_once feature_values)
      else feature_values
  end.

Definition SetLaneFeatureValues (obstacle_ptr : Obstacle D)
    (lane_sequence_ptr : LaneSequence D) : list D :=
  let feature := latest_feature obstacle_ptr in
  if negb (IsInitialized feature) then []
  else if negb (bool_decide (is_Some (position feature))) then []
  else
    let heading := velocity_heading_value feature in
    extrapolate_loop (LANE_POINTS_SIZE cfg)
      (lane_segment_loop feature heading (lane_segment lane_sequence_ptr) []).
End LaneFeatures.

(** ** Feature assembly and the evaluation loop *)

Inductive ModelKind := GoModel | CutinModel.

(** One [Run] of a model: which model, for which lane sequence of the loop,
    on which two input matrices. *)
Record ModelCall (D : Type) := mkModelCall {
  call_model : ModelKind;
  call_sequence : nat;
  call_lane_feature_mat : list (list D);
  call_obs_feature_mat : list (list D)
}.

Section Evaluation.
Context {D : Type} {ops : DoubleOps D}.
Variable cfg : Config D.
Variable GetObstacle : Z -> option (Obstacle D).
(** Modelled from the spec: [network::CruiseModel::Run] is external; its
    output matrix has at least one row and two columns, of which the
    evaluator reads entries (0,0) and (0,1), returned here as a pair. *)
Variable go_model_Run cutin_model_Run : list (list D) -> list (list D) -> D * D.
Local Open Scope double_scope.

Definition feature_size : nat :=
  OBSTACLE_FEATURE_SIZE cfg + INTERACTION_FEATURE_SIZE
  + SINGLE_LANE_FEATURE_SIZE * LANE_POINTS_SIZE cfg.

Definition set_probability (s : LaneSequence D) (p : D) : LaneSequence D :=
  mkLaneSequence (lane_segment s) (vehicle_on_lane s) (nearby_obstacle s)
                 (Some p) (time_to_lane_center s) (mlp_features s).
Definition set_time_to_lane_center (s : LaneSequence D) (t : D)
  : LaneSequence D :=
  mkLaneSequence (lane_segment s) (vehicle_on_lane s) (nearby_obstacle s)
                 (probability s) (Some t) (mlp_features s).
Definition add_mlp_features (s : LaneSequence D) (v : D) : LaneSequence D :=
  mkLaneSequence (lane_segment s) (vehicle_on_lane s) (nearby_obstacle s)
                 (probability s) (time_to_lane_center s) (mlp_features s ++ [v]).

Definition SaveOfflineFeatures (sequence : LaneSequence D)
    (feature_values : list D) : LaneSequence D :=
  fold_left add_mlp_features feature_values sequence.

(** [ExtractFeatureValues]: the sequence (written in offline mode) and
    the output vector after the call; [None] when the interaction block
    dereferences a null obstacle. *)
Definition ExtractFeatureValues (obstacle_ptr : Obstacle D)
    (lane_sequence_ptr : LaneSequence D) (feature_values : list D)
  : option (LaneSequence D * list D) :=
  let obstacle_feature_values := SetObstacleFeatureValues cfg obstacle_ptr in
  if negb (length obstacle_feature_values =? OBSTACLE_FEATURE_SIZE cfg)%nat
  then Some (lane_sequence_ptr, feature_values)
  else
    let feature_values := feature_values ++ obstacle_feature_values in
    match SetInteractionFeatureValues cfg GetObstacle lane_sequence_ptr with
    | None => None
    | Some interaction_feature_values =>
        if negb (length interaction_feature_values
                 =? INTERACTION_FEATURE_SIZE)%nat
        then Some (lane_sequence_ptr, feature_values)
        else
          let feature_values := feature_values ++ interaction_feature_values in
          let lane_feature_values :=
            SetLaneFeatureValues cfg obstacle_ptr lane_sequence_ptr in
          if negb (length lane_feature_values
                   =? SINGLE_LANE_FEATURE_SIZE * LANE_POINTS_SIZE cfg)%nat
          then Some (lane_sequence_ptr, feature_values)
          else
            let feature_values := feature_values ++ lane_feature_values in
            if FLAGS_prediction_offline_mode cfg
            then Some (SaveOfflineFeatures lane_sequence_ptr feature_values,
                       feature_values)
            else Some (lane_sequence_ptr, feature_values)
    end.

Definition run_model (k : ModelKind) : list (list D) -> list (list D) -> D * D :=
  match k with GoModel => go_model_Run | CutinModel => cutin_model_Run end.

(** Body of the loop of [Evaluate] (lines 142-172) for sequence [i]: the
    sequence after the iteration and the model runs it made. *)
Definition evaluate_sequence (obstacle_ptr : Obstacle D) (i : nat)
    (lane_sequence_ptr : LaneSequence D)
  : option (LaneSequence D * list (ModelCall D)) :=
  match ExtractFeatureValues obstacle_ptr lane_sequence_ptr [] with
  | None => None
  | Some (lane_sequence_ptr, feature_values) =>
      if negb (length feature_values =? feature_size)%nat
      then Some (set_probability lane_sequence_ptr d0, [])
      else if negb (FLAGS_prediction_offline_mode cfg)
      then
        match VectorToMatrixXf_row feature_values 0 (OBSTACLE_FEATURE_SIZE cfg)
        with
        | None => None
        | Some obs_feature_mat =>
            match VectorToMatrixXf feature_values
                    (OBSTACLE_FEATURE_SIZE cfg + INTERACTION_FEATURE_SIZE)
                    (length feature_values)
                    SINGLE_LANE_FEATURE_SIZE (LANE_POINTS_SIZE cfg)
            with
            | None => None
            | Some lane_feature_mat =>
                let k := if vehicle_on_lane lane_sequence_ptr
                         then GoModel else CutinModel in
                let model_output :=
                  run_model k lane_feature_mat obs_feature_mat in
                Some (set_time_to_lane_center
                        (set_probability lane_sequence_ptr (fst model_output))
                        (snd model_output),
                      [mkModelCall k i lane_feature_mat obs_feature_mat])
            end
        end
      else Some (lane_sequence_ptr, [])
  end.

(** The lane sequences of the latest feature's lane graph, and the write
    through [mutable_lane_sequence(i)]. *)
Definition lane_sequences (o : Obstacle D) : list (LaneSequence D) :=
  match lane (latest_feature o) with
  | Some ln =>
      match lane_graph ln with Some g => lane_sequence g | None => [] end
  | None => []
  end.

Definition with_lane_sequences (f : Feature D) (l : list (LaneSequence D))
  : Feature D :=
  match lane f with
  | Some ln =>
      match lane_graph ln with
      | Some _ =>
          mkFeature (IsInitialized f) (timestamp f) (position f) (velocity f)
                    (acceleration f) (velocity_heading f) (speed f) (length_ f)
                    (Some (mkLane (lane_feature ln) (Some (mkLaneGraph l))))
      | None => f
      end
  | None => f
  end.

Definition relane (o : Obstacle D) (l : list (LaneSequence D)) : Obstacle D :=
  mkObstacle (id o) (with_lane_sequences (latest_feature o) l)
             (older_features o).

Definition store_lane_sequence (o : Obstacle D) (i : nat) (s : LaneSequence D)
  : Obstacle D :=
  relane o (<[i := s]> (lane_sequences o)).

(** The [for] loop of [Evaluate]: [n] iterations remain, [i] is the loop
    index; the obstacle is updated in place. *)
Fixpoint evaluate_loop (n i : nat) (o : Obstacle D) (calls : list (ModelCall D))
  : option (Obstacle D * list (ModelCall D)) :=
  match n with
  | O => Some (o, calls)
  | S n' =>
      match lane_sequences o !! i with
      | None => None
      | Some lane_sequence_ptr =>
          match evaluate_sequence o i lane_sequence_ptr with
          | None => None
          | Some (s', new_calls) =>
              evaluate_loop n' (S i) (store_lane_sequence o i s')
                            (calls ++ new_calls)
          end
      end
  end.

(** [Evaluate]: the obstacle, the model runs and the feature-output sink
    after the call; [None] when the process aborts. *)
Definition Evaluate (obstacle_ptr : Obstacle D) (feature_output : list (Feature D))
  : option (Obstacle D * list (ModelCall D) * list (Feature D)) :=
  let unchanged := Some (obstacle_ptr, [], feature_output) in
  if negb (IsInitialized (latest_feature obstacle_ptr)) then unchanged
  else
    match lane (latest_feature obstacle_ptr) with
    | None => unchanged
    | Some ln =>
        match lane_graph ln with
        | None => unchanged
        | Some lane_graph_ptr =>
            if (length (lane_sequence lane_graph_ptr) =? 0)%nat then unchanged
            else
              match evaluate_loop (length (lane_sequence lane_graph_ptr)) 0
                                  obstacle_ptr [] with
              | None => None
              | Some (o', calls) =>
                  if FLAGS_prediction_offline_mode cfg
                  then Some (o', calls, feature_output ++ [latest_feature o'])
                  else Some (o', calls, feature_output)
              end
        end
    end.
End Evaluation.

(** ** The inverse of the frame change, as the specification words it *)

Section InverseTransform.
Context {D : Type} {ops : DoubleOps D}.
Local Open Scope double_scope.

(** From the specification, not from the source: rotate a local point by
    [+ heading], then translate it by [+ origin]. *)
Definition ObjCoordToWorldCoord (obj_coord obj_world_coord : D * D)
    (obj_world_angle : D) : D * D :=
  (dcos obj_world_angle * fst obj_coord - dsin obj_world_angle * snd obj_coord
     + fst obj_world_coord,
   dsin obj_world_angle * fst obj_coord + dcos obj_world_angle * snd obj_coord
     + snd obj_world_coord).
End InverseTransform.

(** ** Doubles as real numbers *)

Module RealDouble.
Local Open Scope R_scope.

(** [std::atan2] on the reals: the angle of the point [(x, y)], with the
    angle of the origin set to 0. *)
Definition Ratan2 (y x : R) : R :=
  if Rlt_dec 0 x then atan (y / x)
  else if Rlt_dec x 0
       then (if Rle_dec 0 y then atan (y / x) + PI else atan (y / x) - PI)
       else if Rlt_dec 0 y then PI / 2
            else if Rlt_dec y 0 then - (PI / 2) else 0.

(** [NormalizeAngle]: [fmod (angle + pi) (2 pi)], made non-negative, minus
    [pi]. *)
Definition Rnormalize_angle (angle : R) : R :=
  angle + PI - 2 * PI * IZR (Int_part ((angle + PI) / (2 * PI))) - PI.

#[export] Instance R_ops : DoubleOps R := {|
  d_of_Z := IZR;
  dadd := Rplus;
  dsub := Rminus;
  dmul := Rmult;
  ddiv := Rdiv;
  dneg := Ropp;
  dlt := fun x y => if Rlt_dec x y then true else false;
  depsilon := / 2 ^ 52;
  dfloat := fun x => x;
  dsqrt := sqrt;
  datan2 := Ratan2;
  dcos := cos;
  dsin := sin;
  NormalizeAngle := Rnormalize_angle
|}.
End RealDouble.

(** ** Doubles as exact rationals, for running the code on examples *)

Module RationalDouble.
Local Open Scope Q_scope.

Definition Qltb (x y : Q) : bool :=
  match x ?= y with Lt => true | _ => false end.

(** Rational stand-ins for the library functions: a floor square root
    (exact on squares), [355/113] for pi, and short Taylor polynomials.
    They are exact at the axis-aligned inputs of the examples below. *)
Definition Qsqrt (q : Q) : Q :=
  Qred (Z.sqrt (Qnum q * Zpos (Qden q)) # Qden q).
Definition Qpi : Q := 355 # 113.
Definition Qatan_small (z : Q) : Q :=
  Qred (z - z * z * z / 3 + z * z * z * z * z / 5).
Definition Qatan (z : Q) : Q :=
  if Qltb 1 z then Qred (Qpi / 2 - Qatan_small (/ z))
  else if Qltb z (- (1)) then Qred (- (Qpi / 2) - Qatan_small (/ z))
  else Qatan_small z.
Definition Qatan2 (y x : Q) : Q :=
  if Qltb 0 x then Qatan (y / x)
  else if Qltb x 0
       then (if Qltb y 0 then Qred (Qatan (y / x) - Qpi)
             else Qred (Qatan (y / x) + Qpi))
       else if Qltb 0 y then Qred (Qpi / 2)
            else if Qltb y 0 then Qred (- (Qpi / 2)) else 0.
Definition Qcos (t : Q) : Q := Qred (1 - t * t / 2 + t * t * t * t / 24).
Definition Qsin (t : Q) : Q :=
  Qred (t - t * t * t / 6 + t * t * t * t * t / 120).
Definition Qnormalize_angle (angle : Q) : Q :=
  Qred (angle + Qpi - 2 * Qpi * inject_Z (Qfloor ((angle + Qpi) / (2 * Qpi)))
        - Qpi).

#[export] Instance Q_ops : DoubleOps Q := {|
  d_of_Z := inject_Z;
  dadd := fun x y => Qred (x + y);
  dsub := fun x y => Qred (x - y);
  dmul := fun x y => Qred (x * y);
  ddiv := fun x y => Qred (x / y);
  dneg := fun x => Qred (- x);
  dlt := Qltb;
  depsilon := 1 # 4503599627370496;
  dfloat := fun x => x;
  dsqrt := Qsqrt;
  datan2 := Qatan2;
  dcos := Qcos;
  dsin := Qsin;
  NormalizeAngle := Qnormalize_angle
|}.
End RationalDouble.

(** ** Vocabulary of the properties *)

Section Vocabulary.
Context {D : Type} {ops : DoubleOps D}.
Variable cfg : Config D.
Variable GetObstacle : Z -> option (Obstacle D).
Variable go_model_Run cutin_model_Run : list (list D) -> list (list D) -> D * D.
Local Open Scope double_scope.

(** The observations the history walk visits: initialized ones, up to the
    first initialized one older than [start_time]. *)
Fixpoint visited_frames (start_time : D) (fs : list (Feature D))
  : list (Feature D) :=
  match fs with
  | [] => []
  | f :: rest =>
      if negb (IsInitialized f) then visited_frames start_time rest
      else if timestamp f <? start_time then []
      else f :: visited_frames start_time rest
  end.

(** Whether the walk reaches index [i] of the history and runs the loop
    body on it. *)
Fixpoint frame_visited (start_time : D) (fs : list (Feature D)) (i : nat)
  : bool :=
  match fs with
  | [] => false
  | f :: rest =>
      if negb (IsInitialized f)
      then match i with O => false | S i' => frame_visited start_time rest i' end
      else if timestamp f <? start_time then false
      else match i with O => true | S i' => frame_visited start_time rest i' end
  end.

Definition history_start_time (o : Obstacle D) : D :=
  obstacle_timestamp o - FLAGS_prediction_trajectory_time_length cfg.

Definition visited (o : Obstacle D) : list (Feature D) :=
  visited_frames (history_start_time o) (feature_history o).

(** The lane-attributed samples of an obstacle, most recent first: each
    visited observation that has a lane feature, with that feature. *)
Definition sample_of (f : Feature D) : option (Feature D * LaneFeature D) :=
  match lane_feature_of f with Some lf => Some (f, lf) | None => None end.

Definition lane_samples (o : Obstacle D) : list (Feature D * LaneFeature D) :=
  omap sample_of (visited o).

(** An observation with usable position, velocity, acceleration and
    velocity heading. *)
Definition usable (f : Feature D) : bool :=
  bool_decide (is_Some (position f)) && bool_decide (is_Some (velocity f))
  && bool_decide (is_Some (acceleration f))
  && bool_decide (is_Some (velocity_heading f)).

(** A window without a gap: no 0 is followed by a 1. *)
Definition gap_free (has : list Z) : Prop :=
  forall i j, (i < j < length has)%nat ->
              at_ 1%Z has i = 0%Z -> at_ 1%Z has j = 0%Z.

(** Arithmetic mean of a group of samples, summed left to right. *)
Definition mean (l : list D) : D :=
  fold_left dadd l d0 / d_of_Z (Z.of_nat (length l)).

(** The lane points of a sequence that carry a position, in order. *)
Definition positioned_points (s : LaneSequence D) : list (LanePoint D) :=
  filter (fun p => is_Some (lp_position p))
         (flat_map (@lane_point D) (lane_segment s)).

(** Every id the interaction scan can select is known to the container. *)
Definition ids_resolve (GetObstacle : Z -> option (Obstacle D))
    (s : LaneSequence D) : Prop :=
  forall n, n ∈ nearby_obstacle s -> is_Some (GetObstacle (nearby_id n)).

(** [Evaluate] gets past its early returns. *)
Definition reaches_loop (o : Obstacle D) : bool :=
  IsInitialized (latest_feature o)
  && negb (length (lane_sequences o) =? 0)%nat.

(** The six per-frame vectors keep their size [W] throughout the walk. *)
Definition window_sized (w : FrameWindow D) : Prop :=
  length (has_history w) = FLAGS_cruise_historical_frame_length cfg /\ length (pos_history w) = FLAGS_cruise_historical_frame_length cfg
  /\ length (vel_history w) = FLAGS_cruise_historical_frame_length cfg /\ length (acc_history w) = FLAGS_cruise_historical_frame_length cfg
  /\ length (vel_heading_history w) = FLAGS_cruise_historical_frame_length cfg
  /\ length (vel_heading_changing_rate_history w) = FLAGS_cruise_historical_frame_length cfg.


Definition prev_ok (i : nat) (has : list Z) : Prop :=
  i = 0%nat \/ has !! (i - 1)%nat = Some 1%Z.

Definition is_flag (v : option Z) : Prop := v = Some 1%Z \/ v = Some 0%Z.


Definition has_graph (o : Obstacle D) : bool :=
  match lane (latest_feature o) with
  | Some ln => bool_decide (is_Some (lane_graph ln))
  | None => false
  end.


(** The id of a selected neighbour is the id of a scanned entry. *)
Definition id_from (l : list (NearbyObstacle D)) (n : NearbyObstacle D) : Prop :=
  no_id n = None \/ exists m, m ∈ l /\ no_id n = Some (nearby_id m).


(** What the four values of one direction are. *)
Definition neighbour_spec (n : NearbyObstacle D) (len spd : D) : Prop :=
  match no_id n with
  | None => len = d0 /\ spd = d0
  | Some i => exists obs, GetObstacle i = Some obs
                          /\ len = length_ (latest_feature obs)
                          /\ spd = speed (latest_feature obs)
  end.


(** An entry the forward (backward) scan can select: at or ahead of the
    obstacle and nearer than the default, resp. behind it and nearer than
    minus the default. *)
Definition forward_candidate (n : NearbyObstacle D) : bool :=
  negb (no_s n <? d0) && (no_s n <? FLAGS_default_s_if_no_obstacle_in_lane_sequence cfg).
Definition backward_candidate (n : NearbyObstacle D) : bool :=
  (no_s n <? d0) && (no_s n >? - FLAGS_default_s_if_no_obstacle_in_lane_sequence cfg).

Definition forward_state (seen : bool) (n : NearbyObstacle D) : Prop :=
  if seen then is_Some (no_id n) /\ (no_s n <? FLAGS_default_s_if_no_obstacle_in_lane_sequence cfg) = true
  else no_id n = None /\ no_s n = FLAGS_default_s_if_no_obstacle_in_lane_sequence cfg /\ no_l n = FLAGS_default_l_if_no_obstacle_in_lane_sequence cfg.
Definition backward_state (seen : bool) (n : NearbyObstacle D) : Prop :=
  if seen then is_Some (no_id n) /\ (no_s n >? - FLAGS_default_s_if_no_obstacle_in_lane_sequence cfg) = true
  else no_id n = None /\ no_s n = - FLAGS_default_s_if_no_obstacle_in_lane_sequence cfg /\ no_l n = FLAGS_default_l_if_no_obstacle_in_lane_sequence cfg.


(** The loop body applied to the sequences [ss], numbered from [i], all
    read from the same obstacle. *)
Fixpoint evaluate_all (o : Obstacle D) (i : nat) (ss : list (LaneSequence D))
  : option (list (LaneSequence D) * list (ModelCall D)) :=
  match ss with
  | [] => Some ([], [])
  | s :: rest =>
      match evaluate_sequence cfg GetObstacle go_model_Run cutin_model_Run o i s with
      | None => None
      | Some (s', c) =>
          match evaluate_all o (S i) rest with
          | None => None
          | Some (rest', cs) => Some (s' :: rest', c ++ cs)
          end
      end
  end.
End Vocabulary.

(** ** Further vocabulary *)

Section WindowVocabulary.
Context {D : Type} {ops : DoubleOps D}.
Variable cfg : Config D.
Local Open Scope double_scope.

(** The six entries of window frame [k]. *)
Definition frame_at (w : FrameWindow D) (k : nat)
  : option Z * option (D * D) * option (D * D) * option (D * D)
    * option D * option D :=
  (has_history w !! k, pos_history w !! k, vel_history w !! k,
   acc_history w !! k, vel_heading_history w !! k,
   vel_heading_changing_rate_history w !! k).

(** The local heading of an observation, relative to heading [h0]. *)
Definition local_heading (h0 : D) (f : Feature D) : D :=
  WorldAngleToObjAngle (velocity_heading_value f) h0.

(** The heading rate the walk stores for an observation [f] that follows
    [g] in the history: heading difference over time difference, the
    divisor shifted by [FLAGS_double_precision]. *)
Definition heading_rate (h0 : D) (g f : Feature D) : D :=
  (local_heading h0 g - local_heading h0 f)
  / (FLAGS_double_precision cfg + timestamp f - timestamp g).

(** [ComputeFinishTime] (lines 672-675): a constant until a model is
    trained. *)
Definition ComputeFinishTime (feature_values : list D) : D := d_of_Z 6.

(** The rate expected at frame [i + d] when the walk enters index [i]
    with window [w]. *)
Definition entry_rate heading (fs : list (Feature D)) (i d : nat)
    (w : FrameWindow D) (f : Feature D) : option D :=
  match d with
  | O => if (i =? 0)%nat then vel_heading_changing_rate_history w !! i
         else Some ((at_ d0 (vel_heading_history w) (i - 1)
                     - local_heading heading f)
                    / (FLAGS_double_precision cfg + timestamp f
                       - prev_timestamp w))
  | S d' => (fun g => heading_rate heading g f) <$> fs !! d'
  end.

(** The pair (forward, backward) was selected from the entries [seen]:
    each is the default or a copy of an entry on its side, and no entry
    on that side is strictly nearer. *)
Definition selected_from (seen : list (NearbyObstacle D))
    (fb : NearbyObstacle D * NearbyObstacle D) : Prop :=
  (fst fb = init_forward cfg
   \/ exists n, n ∈ seen /\ (no_s n <? d0) = false /\ fst fb = take_over n)
  /\ (forall n, n ∈ seen -> (no_s n <? d0) = false ->
                (no_s n <? no_s (fst fb)) = false)
  /\ (snd fb = init_backward cfg
      \/ exists n, n ∈ seen /\ (no_s n <? d0) = true /\ snd fb = take_over n)
  /\ (forall n, n ∈ seen -> (no_s n <? d0) = true ->
                (no_s n >? no_s (snd fb)) = false).
End WindowVocabulary.

(** ** Concrete scenarios, over the rationals *)

Module Scenario.
Import RationalDouble.
Local Open Scope Q_scope.

(** Five history frames, an 8 s horizon, defaults 1000 and 10000, and
    block sizes [23 + 9 * 5] and 20 lane points. *)
Definition cfg_online : Config Q :=
  mkConfig 5 8 false 1000 10000 (1 # 1000000) 68 20.
Definition cfg_offline : Config Q :=
  mkConfig 5 8 true 1000 10000 (1 # 1000000) 68 20.

Definition go_model (lane_mat obs_mat : list (list Q)) : Q * Q := (3 # 4, 6).
Definition cutin_model (lane_mat obs_mat : list (list Q)) : Q * Q := (1 # 4, 2).

Definition lane_point_at (x k : Q) : LanePoint Q :=
  mkLanePoint (Some (mkPoint x 0)) 0 k.

(** Three lane points straight ahead, with curvatures 7, 8 and 9. *)
Definition seq_three_points : LaneSequence Q :=
  mkLaneSequence
    [mkLaneSegment [lane_point_at 1 7; lane_point_at 2 8];
     mkLaneSegment [lane_point_at 3 9]]
    true [] (Some (1 # 2)) None [].

(** No lane point at all. *)
Definition seq_no_points : LaneSequence Q :=
  mkLaneSequence [] true [] (Some (1 # 2)) None [].

(** Three points, off lane, one obstacle ahead (id 7) and one behind
    (id 8). *)
Definition seq_neighbours : LaneSequence Q :=
  mkLaneSequence
    [mkLaneSegment [lane_point_at 1 0; lane_point_at 2 0; lane_point_at 3 0]]
    false
    [mkNearbyObstacle (Some 7%Z) 30 0; mkNearbyObstacle (Some 8%Z) (-12) 1]
    (Some (1 # 2)) None [].

(** A single entry far ahead, beyond the default distance. *)
Definition seq_far_ahead : LaneSequence Q :=
  mkLaneSequence [] true [mkNearbyObstacle (Some 7%Z) 2000 1] None None [].

Definition three_candidates : list (LaneSequence Q) :=
  [seq_three_points; seq_no_points; seq_neighbours].

Definition moving_frame (t : Q) (ln : option (Lane Q)) : Feature Q :=
  mkFeature true t (Some (mkPoint 0 0)) (Some (mkPoint 1 0))
            (Some (mkPoint 0 0)) (Some 0) 1 4 ln.

Definition lane_attributes (a l : Q) : LaneFeature Q := mkLaneFeature a l 3 4 0.

(** One observation with a lane graph but no lane feature. *)
Definition obstacle_without_lane_feature : Obstacle Q :=
  mkObstacle 1
    (moving_frame 100 (Some (mkLane None (Some (mkLaneGraph [seq_three_points])))))
    [].

(** One observation with lane attributes and three candidates. *)
Definition obstacle_with_candidates : Obstacle Q :=
  mkObstacle 1
    (moving_frame 100
       (Some (mkLane (Some (lane_attributes 1 2))
                     (Some (mkLaneGraph three_candidates)))))
    [].

(** Ten observations 0.1 s apart, only the latest with lane attributes. *)
Definition obstacle_sparse_lane : Obstacle Q :=
  mkObstacle 1
    (moving_frame 100
       (Some (mkLane (Some (lane_attributes 1 2))
                     (Some (mkLaneGraph three_candidates)))))
    (map (fun i : nat => moving_frame (100 - inject_Z (Z.of_nat i) / 10) None)
         (seq 1 9)).

(** Ten observations 0.1 s apart, all with lane attributes: angle
    difference [i] and lane offset [2 i] at frame [i]. *)
Definition obstacle_dense_lane : Obstacle Q :=
  mkObstacle 1
    (moving_frame 100
       (Some (mkLane (Some (lane_attributes 0 0))
                     (Some (mkLaneGraph three_candidates)))))
    (map (fun i : nat =>
            moving_frame (100 - inject_Z (Z.of_nat i) / 10)
              (Some (mkLane (Some (lane_attributes (inject_Z (Z.of_nat i))
                                     (2 * inject_Z (Z.of_nat i))))
                            None)))
         (seq 1 9)).

(** Two observations: the latest without position, the one before it
    with position, velocity, acceleration and heading. *)
Definition obstacle_unusable_then_usable : Obstacle Q :=
  mkObstacle 1
    (mkFeature true 100 None (Some (mkPoint 1 0)) (Some (mkPoint 0 0))
               (Some 0) 1 4
               (Some (mkLane (Some (lane_attributes 1 2)) None)))
    [moving_frame (999 # 10) None].

(** Two usable observations. *)
Definition obstacle_two_frames : Obstacle Q :=
  mkObstacle 1
    (moving_frame 100 (Some (mkLane (Some (lane_attributes 1 2)) None)))
    [moving_frame (999 # 10) None].

Definition neighbour (i : Z) (len spd : Q) : Obstacle Q :=
  mkObstacle i
    (mkFeature true 100 (Some (mkPoint 30 0)) None None None spd len None) [].

(** The container knows obstacles 7 and 8. *)
Definition container (i : Z) : option (Obstacle Q) :=
  if (i =? 7)%Z then Some (neighbour 7 (9 # 2) 10)
  else if (i =? 8)%Z then Some (neighbour 8 5 8)
  else None.
End Scenario.

(** ** Further scenarios *)

Module FurtherScenario.
Import RationalDouble Scenario.
Local Open Scope Q_scope.

(** Four observations; the third one is 50 s old, far behind the 8 s
    horizon, and a recent one is stored behind it. *)
Definition obstacle_stale_frame : Obstacle Q :=
  mkObstacle 1
    (moving_frame 100 (Some (mkLane (Some (lane_attributes 1 2)) None)))
    [moving_frame (999 # 10) None; moving_frame 50 None;
     moving_frame (998 # 10) None].

(** The three lane points of [seq_three_points] in one segment, followed
    by a lane point without position. *)
Definition seq_three_points_regrouped : LaneSequence Q :=
  mkLaneSequence
    [mkLaneSegment [lane_point_at 1 7; lane_point_at 2 8; lane_point_at 3 9;
                    mkLanePoint None 5 6]]
    true [] (Some (1 # 2)) None [].

(** One observation without position, with lane attributes and three
    candidates. *)
Definition obstacle_no_position : Obstacle Q :=
  mkObstacle 1
    (mkFeature true 100 None (Some (mkPoint 1 0)) (Some (mkPoint 0 0))
               (Some 0) 1 4
               (Some (mkLane (Some (lane_attributes 1 2))
                             (Some (mkLaneGraph three_candidates)))))
    [].
End FurtherScenario.

(** Over the reals: one observation with lane attributes and speed 3. *)

Module RealScenario.
Import RealDouble.
Local Open Scope R_scope.

Definition cfg_real : Config R := mkConfig 5 8 false 1000 10000 (/ 1000000) 68 20.

Definition obstacle_steady : Obstacle R :=
  mkObstacle 1
    (mkFeature true 100 (Some (mkPoint 0 0)) (Some (mkPoint 3 0))
               (Some (mkPoint 0 0)) (Some 0) 3 4
               (Some (mkLane (Some (mkLaneFeature 0 0 3 4 0)) None)))
    [].
End RealScenario.

(** * Properties *)

(** ** The history walk *)

Section WalkFacts.
Context {D : Type} {ops : DoubleOps D}.
Variable cfg : Config D.
Local Open Scope double_scope.

Local Abbreviation W := (FLAGS_cruise_historical_frame_length cfg).

Lemma history_loop_samples start pos heading fs i st :
  fst (history_loop cfg start pos heading fs i st)
  = fold_left (fun s f => push_samples f s) (visited_frames start fs) (fst st).
Proof.
  revert i st. induction fs as [|f rest IH]; intros i st; simpl; [done|].
  destruct (IsInitialized f); simpl; [|apply IH].
  destruct (timestamp f <? start); simpl; [done|].
  rewrite IH. done.
Qed.

Lemma push_samples_fold (fs : list (Feature D)) (s : LaneSamples D) :
  let l := omap sample_of fs in
  let s' := fold_left (fun s f => push_samples f s) fs s in
  thetas s' = thetas s ++ map (fun x => angle_diff (snd x)) l
  /\ lane_ls s' = lane_ls s ++ map (fun x => lane_l (snd x)) l
  /\ dist_lbs s' = dist_lbs s ++ map (fun x => dist_to_left_boundary (snd x)) l
  /\ dist_rbs s' = dist_rbs s ++ map (fun x => dist_to_right_boundary (snd x)) l
  /\ lane_types s' = lane_types s ++ map (fun x => lane_turn_type (snd x)) l
  /\ speeds s' = speeds s ++ map (fun x => speed (fst x)) l
  /\ timestamps s' = timestamps s ++ map (fun x => timestamp (fst x)) l
  /\ count s' = (count s + Z.of_nat (length l))%Z.
Proof.
  revert s. induction fs as [|f rest IH]; intros s; cbn zeta.
  - simpl. rewrite !app_nil_r. repeat split; lia.
  - destruct (IH (push_samples f s)) as (H1 & H2 & H3 & H4 & H5 & H6 & H7 & H8).
    cbn [fold_left]. rewrite H1, H2, H3, H4, H5, H6, H7, H8.
    cbn [omap list_omap]. unfold push_samples, sample_of.
    destruct (lane_feature_of f) as [lf|]; simpl; [|done].
    rewrite <- !app_assoc. simpl. repeat split; lia.
Qed.

(** The sample vectors after the walk are the lane-attributed visited
    observations, most recent first. *)
Lemma scan_samples o :
  let s := fst (scan_history cfg o) in
  let l := lane_samples cfg o in
  thetas s = map (fun x => angle_diff (snd x)) l
  /\ lane_ls s = map (fun x => lane_l (snd x)) l
  /\ dist_lbs s = map (fun x => dist_to_left_boundary (snd x)) l
  /\ dist_rbs s = map (fun x => dist_to_right_boundary (snd x)) l
  /\ lane_types s = map (fun x => lane_turn_type (snd x)) l
  /\ speeds s = map (fun x => speed (fst x)) l
  /\ timestamps s = map (fun x => timestamp (fst x)) l
  /\ count s = Z.of_nat (length l).
Proof.
  unfold scan_history. rewrite history_loop_samples. simpl.
  exact (push_samples_fold (visited cfg o) init_samples).
Qed.

Lemma init_window_sized f : window_sized cfg (init_window cfg f).
Proof. unfold window_sized, init_window; simpl. rewrite !length_replicate. done. Qed.

Lemma fill_frame_sized pos heading f i w :
  window_sized cfg w -> window_sized cfg (fill_frame cfg pos heading f i w).
Proof.
  unfold window_sized, fill_frame. intros Hw.
  repeat (case_match; simpl); rewrite ?length_insert; exact Hw.
Qed.

Lemma history_loop_sized start pos heading fs i st :
  window_sized cfg (snd st) ->
  window_sized cfg (snd (history_loop cfg start pos heading fs i st)).
Proof.
  revert i st. induction fs as [|f rest IH]; intros i st Hw; simpl; [done|].
  destruct (IsInitialized f); simpl; [|by apply IH].
  destruct (timestamp f <? start); [done|].
  apply IH. simpl. by apply fill_frame_sized.
Qed.

Lemma scan_window_sized o : window_sized cfg (snd (scan_history cfg o)).
Proof. apply history_loop_sized, init_window_sized. Qed.

Lemma flat_map_block {A} (g : nat -> list A) (n : nat) :
  (forall j, length (g j) = n) ->
  forall len a i, (i < len)%nat ->
    take n (drop (n * i) (flat_map g (seq a len))) = g (a + i)%nat.
Proof.
  intros Hg. induction len as [|len IH]; intros a i Hi; [lia|].
  cbn [seq flat_map]. destruct i as [|i].
  - rewrite Nat.mul_0_r, Nat.add_0_r, drop_0.
    rewrite take_app_length'; [done|by rewrite Hg].
  - replace (n * S i)%nat with (length (g a) + n * i)%nat by (rewrite Hg; lia).
    rewrite drop_app_add. rewrite IH by lia. f_equal. lia.
Qed.

Lemma flat_map_block_length {A} (g : nat -> list A) (n : nat) :
  (forall j, length (g j) = n) ->
  forall len a, length (flat_map g (seq a len)) = (n * len)%nat.
Proof.
  intros Hg. induction len as [|len IH]; intros a; simpl; [lia|].
  rewrite length_app, Hg, IH. lia.
Qed.
End WalkFacts.

(** ** The obstacle block *)

Section ObstacleBlock.
Context {D : Type} {ops : DoubleOps D}.
Variable cfg : Config D.
Local Open Scope double_scope.

Local Abbreviation W := (FLAGS_cruise_historical_frame_length cfg).

Lemma lane_samples_nil (o : Obstacle D) :
  lane_samples cfg o = []
  <-> forall f, f ∈ visited cfg o -> lane_feature_of f = None.
Proof.
  unfold lane_samples. split.
  - intros Hnil f Hf. destruct (lane_feature_of f) as [lf|] eqn:Hlf; [|done].
    assert (Hin : (f, lf) ∈ omap sample_of (visited cfg o)).
    { apply list_elem_of_omap. exists f. split; [done|].
      unfold sample_of. by rewrite Hlf. }
    rewrite Hnil in Hin. by apply elem_of_nil in Hin.
  - intros Hall. induction (visited cfg o) as [|f l IH]; [done|].
    cbn [omap list_omap]. unfold sample_of at 1.
    rewrite (Hall f) by apply list_elem_of_here.
    apply IH. intros g Hg. apply Hall. by apply list_elem_of_further.
Qed.

Lemma lane_samples_cons (o : Obstacle D) :
  (exists f, f ∈ visited cfg o /\ is_Some (lane_feature_of f))
  -> lane_samples cfg o <> [].
Proof.
  intros (f & Hf & Hlf) Hnil.
  rewrite (proj1 (lane_samples_nil o) Hnil f Hf) in Hlf.
  by destruct Hlf.
Qed.

Lemma length_visited_frames start (fs : list (Feature D)) :
  (length (visited_frames start fs) <= length fs)%nat.
Proof.
  induction fs as [|f rest IH]; simpl; [done|].
  repeat case_match; simpl; lia.
Qed.

Lemma length_visited (o : Obstacle D) :
  (length (visited cfg o) <= history_size o)%nat.
Proof. apply length_visited_frames. Qed.

Lemma length_lane_samples (o : Obstacle D) :
  (length (lane_samples cfg o) <= length (visited cfg o))%nat.
Proof.
  unfold lane_samples. induction (visited cfg o) as [|f l IH]; [done|].
  cbn [omap list_omap]. destruct (sample_of f); simpl in *; lia.
Qed.

Lemma count_positive (o : Obstacle D) :
  lane_samples cfg o <> [] ->
  (count (fst (scan_history cfg o)) <=? 0)%Z = false.
Proof.
  intros Hne. destruct (scan_samples cfg o) as (_ & _ & _ & _ & _ & _ & _ & Hc).
  apply Z.leb_gt. rewrite Hc.
  destruct (lane_samples cfg o); [done|]. cbn [length]. lia.
Qed.

Lemma SetObstacleFeatureValues_nonempty (o : Obstacle D) :
  lane_samples cfg o <> [] ->
  SetObstacleFeatureValues cfg o
  = summary_features (history_size o) (fst (scan_history cfg o))
    ++ window_features cfg (snd (scan_history cfg o)).
Proof.
  intros Hne. unfold SetObstacleFeatureValues. by rewrite count_positive.
Qed.

Lemma SetObstacleFeatureValues_empty (o : Obstacle D) :
  lane_samples cfg o = [] -> SetObstacleFeatureValues cfg o = [].
Proof.
  intros Hnil. unfold SetObstacleFeatureValues.
  destruct (scan_samples cfg o) as (_ & _ & _ & _ & _ & _ & _ & Hc).
  rewrite Hc, Hnil. done.
Qed.

Lemma summary_features_length n (s : LaneSamples D) :
  length (summary_features n s) = 23%nat.
Proof. reflexivity. Qed.

Lemma frame_values_length (w : FrameWindow D) i :
  length (frame_values w i) = 9%nat.
Proof. reflexivity. Qed.

(** The block is empty or has [23 + 9 W] values. *)
Lemma SetObstacleFeatureValues_length (o : Obstacle D) :
  length (SetObstacleFeatureValues cfg o)
  = if bool_decide (lane_samples cfg o = []) then 0%nat else (23 + 9 * W)%nat.
Proof.
  case_bool_decide as Hs.
  - by rewrite SetObstacleFeatureValues_empty.
  - rewrite SetObstacleFeatureValues_nonempty by done.
    rewrite length_app, summary_features_length. unfold window_features.
    by rewrite (flat_map_block_length (frame_values_length _)).
Qed.

(** C7: when at least one visited observation carries lane attributes, the
    obstacle block has exactly [23 + 9 W] values: the 23 summary values,
    then for each frame [i < W] the nine values has_data, pos.x, pos.y,
    vel.x, vel.y, acc.x, acc.y, heading, heading rate of that frame. *)
Theorem obstacle_block_layout (o : Obstacle D) :
  (exists f, f ∈ visited cfg o /\ is_Some (lane_feature_of f)) ->
  let out := SetObstacleFeatureValues cfg o in
  let w := snd (scan_history cfg o) in
  length out = (23 + 9 * W)%nat
  /\ take 23 out
     = summary_features (history_size o) (fst (scan_history cfg o))
  /\ forall i, (i < W)%nat ->
       exists has pos vel acc heading rate,
         has_history w !! i = Some has
         /\ pos_history w !! i = Some pos
         /\ vel_history w !! i = Some vel
         /\ acc_history w !! i = Some acc
         /\ vel_heading_history w !! i = Some heading
         /\ vel_heading_changing_rate_history w !! i = Some rate
         /\ take 9 (drop (23 + 9 * i) out)
            = [d_of_Z has; fst pos; snd pos; fst vel; snd vel;
               fst acc; snd acc; heading; rate].
Proof.
  intros Hex out w.
  pose proof (lane_samples_cons Hex) as Hne.
  subst out. rewrite SetObstacleFeatureValues_nonempty by done.
  split; [|split].
  - rewrite length_app, summary_features_length. unfold window_features.
    by rewrite (flat_map_block_length (frame_values_length _)).
  - by rewrite take_app_length'.
  - intros i Hi.
    destruct (scan_window_sized cfg o) as (H1 & H2 & H3 & H4 & H5 & H6).
    subst w.
    set (w := snd (scan_history cfg o)) in *.
    destruct (lookup_lt_is_Some_2 (has_history w) i) as [has Hhas]; [lia|].
    destruct (lookup_lt_is_Some_2 (pos_history w) i) as [pos Hpos]; [lia|].
    destruct (lookup_lt_is_Some_2 (vel_history w) i) as [vel Hvel]; [lia|].
    destruct (lookup_lt_is_Some_2 (acc_history w) i) as [acc Hacc]; [lia|].
    destruct (lookup_lt_is_Some_2 (vel_heading_history w) i)
      as [heading Hheading]; [lia|].
    destruct (lookup_lt_is_Some_2 (vel_heading_changing_rate_history w) i)
      as [rate Hrate]; [lia|].
    exists has, pos, vel, acc, heading, rate.
    repeat (split; [done|]).
    rewrite drop_app_add'; [|done]. unfold window_features.
    rewrite (flat_map_block (frame_values_length _)) by done.
    rewrite Nat.add_0_l. unfold frame_values, at_.
    by rewrite Hhas, Hpos, Hvel, Hacc, Hheading, Hrate.
Qed.

Lemma ComputeMean_full (nums : list D) (start n : nat) :
  (0 < n)%nat -> (start + n <= length nums)%nat ->
  ComputeMean nums start (start + n - 1) = mean (take n (drop start nums)).
Proof.
  intros Hn Hlen. unfold ComputeMean, mean, mean_range.
  replace (S (start + n - 1) - start)%nat with n by lia.
  assert (Hl : length (take n (drop start nums)) = n).
  { rewrite length_take, length_drop. lia. }
  rewrite Hl. destruct n; [lia|]. done.
Qed.

Lemma ComputeMean_curr (nums : list D) :
  (10 <= length nums)%nat ->
  ComputeMean nums 0 (curr_size - 1) = mean (take 5 nums).
Proof.
  intros Hlen.
  exact (ComputeMean_full (nums := nums) (start := 0) (n := 5) ltac:(lia) ltac:(lia)).
Qed.

Lemma ComputeMean_prev (nums : list D) :
  (10 <= length nums)%nat ->
  ComputeMean nums curr_size (2 * curr_size - 1) = mean (take 5 (drop 5 nums)).
Proof.
  intros Hlen.
  exact (ComputeMean_full (nums := nums) (start := 5) (n := 5) ltac:(lia) ltac:(lia)).
Qed.

(** C5, as the code has it: the angle-diff delta (value 3) and the
    lane-offset delta (value 8) are gated on the obstacle's history size.
    With at least 10 lane-attributed samples they are the mean of the 5
    most recent samples minus the mean of the next 5; with a history of
    fewer than 10 observations they are 0; in every case they are
    [ComputeMean] over sample indices 0..4 minus that over 5..9 when the
    history holds at least 10 observations.  The rates (values 4 and 9)
    divide the deltas by [delta_t * 5] when [delta_t] exceeds epsilon and
    are 0 otherwise. *)
Theorem recent_deltas_and_rates (o : Obstacle D) :
  lane_samples cfg o <> [] ->
  let out := SetObstacleFeatureValues cfg o in
  let angle_samples := map (fun x => angle_diff (snd x)) (lane_samples cfg o) in
  let offset_samples := map (fun x => lane_l (snd x)) (lane_samples cfg o) in
  let delta_t := delta_t_of (fst (scan_history cfg o)) in
  exists angle_delta angle_rate offset_delta offset_rate,
    out !! 3%nat = Some angle_delta /\ out !! 4%nat = Some angle_rate
    /\ out !! 8%nat = Some offset_delta /\ out !! 9%nat = Some offset_rate
    /\ ((10 <= length (lane_samples cfg o))%nat ->
        angle_delta = mean (take 5 angle_samples)
                      - mean (take 5 (drop 5 angle_samples))
        /\ offset_delta = mean (take 5 offset_samples)
                          - mean (take 5 (drop 5 offset_samples)))
    /\ ((history_size o < 10)%nat -> angle_delta = d0 /\ offset_delta = d0)
    /\ ((10 <= history_size o)%nat ->
        angle_delta = ComputeMean angle_samples 0 4
                      - ComputeMean angle_samples 5 9
        /\ offset_delta = ComputeMean offset_samples 0 4
                          - ComputeMean offset_samples 5 9)
    /\ angle_rate = (if delta_t >? depsilon
                     then angle_delta / (delta_t * d_of_Z 5) else d0)
    /\ offset_rate = (if delta_t >? depsilon
                      then offset_delta / (delta_t * d_of_Z 5) else d0).
Proof.
  intros Hne out angle_samples offset_samples delta_t.
  subst out. rewrite SetObstacleFeatureValues_nonempty by done.
  destruct (scan_samples cfg o) as (Hth & Hll & _).
  set (s := fst (scan_history cfg o)) in *.
  exists (recent_delta (history_size o) angle_samples),
         (delta_rate delta_t (recent_delta (history_size o) angle_samples)),
         (recent_delta (history_size o) offset_samples),
         (delta_rate delta_t (recent_delta (history_size o) offset_samples)).
  subst angle_samples offset_samples. rewrite <- Hth, <- Hll.
  repeat (split; [by rewrite lookup_app_l by (simpl; lia)|]).
  assert (Hsize : (length (lane_samples cfg o) <= history_size o)%nat).
  { etransitivity; [apply length_lane_samples|apply length_visited]. }
  assert (Hlen_th : length (thetas s) = length (lane_samples cfg o))
    by (by rewrite Hth, length_map).
  assert (Hlen_ll : length (lane_ls s) = length (lane_samples cfg o))
    by (by rewrite Hll, length_map).
  split; [|split; [|split; [|split]]].
  - intros Hten. unfold recent_delta.
    destruct (Nat.leb_spec (2 * curr_size) (history_size o)) as [_|Hlt];
      [|unfold curr_size in Hlt; lia].
    by rewrite !ComputeMean_curr, !ComputeMean_prev by lia.
  - intros Hlt. unfold recent_delta.
    destruct (Nat.leb_spec (2 * curr_size) (history_size o)) as [Hge|_];
      [unfold curr_size in Hge; lia|done].
  - intros Hge. unfold recent_delta.
    destruct (Nat.leb_spec (2 * curr_size) (history_size o)) as [_|Hlt];
      [done|unfold curr_size in Hlt; lia].
  - reflexivity.
  - reflexivity.
Qed.
End ObstacleBlock.

(** ** The has-data flags of the window *)

Section WindowFlags.
Context {D : Type} {ops : DoubleOps D}.
Variable cfg : Config D.
Local Open Scope double_scope.

Local Abbreviation W := (FLAGS_cruise_historical_frame_length cfg).

(** The flag vector after the loop body ran on frame [i]. *)
Lemma fill_frame_has pos heading (f : Feature D) i (w : FrameWindow D) :
  has_history (fill_frame cfg pos heading f i w)
  = if (W <=? i)%nat then has_history w
    else if negb (i =? 0)%nat && (at_ 1%Z (has_history w) (i - 1) =? 0)%Z
         then <[i := 0%Z]> (has_history w)
         else if usable f then has_history w
              else <[i := 0%Z]> (has_history w).
Proof.
  unfold fill_frame, usable.
  destruct (W <=? i)%nat; [done|].
  destruct (negb (i =? 0)%nat && (at_ 1%Z (has_history w) (i - 1) =? 0)%Z);
    [done|].
  destruct (bool_decide (is_Some (position f))),
           (bool_decide (is_Some (velocity f))),
           (bool_decide (is_Some (acceleration f))),
           (bool_decide (is_Some (velocity_heading f)));
    simpl; try destruct (negb (i =? 0)%nat); simpl;
    rewrite ?list_insert_insert_eq; done.
Qed.

Lemma fill_frame_has_step pos heading (f : Feature D) i (w : FrameWindow D) :
  (i < W)%nat -> length (has_history w) = W ->
  has_history w !! i = Some 1%Z ->
  (i = 0%nat \/ is_flag (has_history w !! (i - 1)%nat)) ->
  let has1 := has_history (fill_frame cfg pos heading f i w) in
  length has1 = W
  /\ (forall j, j <> i -> has1 !! j = has_history w !! j)
  /\ is_flag (has1 !! i)
  /\ (has1 !! i = Some 1%Z <-> prev_ok i (has_history w) /\ usable f = true).
Proof.
  intros Hi Hlen Hone Hprev has1. subst has1. rewrite fill_frame_has.
  destruct (Nat.leb_spec W i) as [?|_]; [lia|].
  unfold prev_ok, is_flag, at_.
  destruct (Nat.eqb_spec i 0) as [Hz|Hz]; simpl.
  - destruct (usable f); rewrite ?length_insert;
      (split; [done|]); (split; [by intros; rewrite ?list_lookup_insert_ne|]);
      rewrite ?list_lookup_insert_eq by lia; rewrite ?Hone; intuition (congruence || lia || eauto).
  - destruct Hprev as [?|[Hp|Hp]]; [done| |]; rewrite Hp; simpl.
    + destruct (usable f); rewrite ?length_insert;
        (split; [done|]); (split; [by intros; rewrite ?list_lookup_insert_ne|]);
        rewrite ?list_lookup_insert_eq by lia; rewrite ?Hone; intuition (congruence || lia || eauto).
    + rewrite length_insert.
      (split; [done|]); (split; [by intros; rewrite ?list_lookup_insert_ne|]).
      rewrite list_lookup_insert_eq by lia. intuition (congruence || lia || eauto).
Qed.

(** Frames before the current index are not written again. *)
Lemma history_loop_has_before start pos heading fs i st j :
  (j < i)%nat ->
  has_history (snd (history_loop cfg start pos heading fs i st)) !! j
  = has_history (snd st) !! j.
Proof.
  revert i st. induction fs as [|f rest IH]; intros i st Hj; simpl; [done|].
  destruct (IsInitialized f); simpl; [|apply IH; lia].
  destruct (timestamp f <? start); [done|].
  rewrite IH by lia. simpl. rewrite fill_frame_has.
  repeat case_match; rewrite ?list_lookup_insert_ne by lia; done.
Qed.

Lemma history_loop_has_prefix start pos heading fs :
  forall i st d,
    (i + d < W)%nat ->
    length (has_history (snd st)) = W ->
    (forall j, (i <= j < W)%nat -> has_history (snd st) !! j = Some 1%Z) ->
    (i = 0%nat \/ is_flag (has_history (snd st) !! (i - 1)%nat)) ->
    (forall e, (e <= d)%nat -> frame_visited start fs e = true) ->
    let has := has_history (snd (history_loop cfg start pos heading fs i st)) in
    is_flag (has !! (i + d)%nat)
    /\ (has !! (i + d)%nat = Some 1%Z
        <-> prev_ok i (has_history (snd st))
            /\ forall e f, (e <= d)%nat -> fs !! e = Some f -> usable f = true).
Proof.
  induction fs as [|f rest IH]; intros i st d Hd Hlen Hones Hprev Hvis has.
  { specialize (Hvis 0%nat ltac:(lia)). done. }
  subst has. pose proof (Hvis 0%nat ltac:(lia)) as Hv0.
  assert (Hinit : IsInitialized f = true /\ (timestamp f <? start) = false).
  { cbn [frame_visited] in Hv0.
    destruct (IsInitialized f), (timestamp f <? start); done. }
  destruct Hinit as [Hinit Hts].
  cbn [history_loop]. rewrite Hinit, Hts. cbn [negb].
  destruct (fill_frame_has_step pos heading f (w := snd st) (i := i))
    as (Hlen1 & Hother & Hflag & Hiff); [lia|done|apply Hones; lia|done|].
  destruct d as [|d].
  - rewrite Nat.add_0_r. rewrite history_loop_has_before by lia. cbn [snd].
    split; [done|]. rewrite Hiff. split.
    + intros [Hp Hu]. split; [done|]. intros e g He Hg.
      assert (e = 0%nat) by lia. subst e. simpl in Hg. by simplify_eq.
    + intros [Hp Hu]. split; [done|]. by apply (Hu 0%nat f).
  - replace (i + S d)%nat with (S i + d)%nat by lia.
    edestruct (IH (S i) (push_samples f (fst st),
                         fill_frame cfg pos heading f i (snd st)) d)
      as [Hfl Hrec]; cbn [fst snd].
    + lia.
    + done.
    + intros j Hj. rewrite Hother by lia. apply Hones. lia.
    + right. by rewrite Nat.sub_1_r.
    + intros e He. specialize (Hvis (S e) ltac:(lia)).
      cbn [frame_visited] in Hvis. by rewrite Hinit, Hts in Hvis.
    + split; [exact Hfl|]. rewrite Hrec. unfold prev_ok at 1.
      cbn [fst snd]. rewrite Nat.sub_1_r. cbn [Nat.pred]. rewrite Hiff. split.
      * intros [[?|[Hp Hu]] Hrest]; [done|]. split; [done|].
        intros e g He Hg. destruct e as [|e]; simpl in Hg.
        -- by simplify_eq.
        -- apply (Hrest e g); [lia|done].
      * intros [Hp Hall]. split.
        -- right. split; [done|]. by apply (Hall 0%nat f); [lia|].
        -- intros e g He Hg. apply (Hall (S e) g); [lia|done].
Qed.

(** C3, as the code has it: for an index [i < W] such that the walk
    visited every frame up to [i], the flag of frame [i] is 0 or 1, it is
    1 exactly when each of the frames 0..i carried usable position,
    velocity, acceleration and velocity heading, and a 0 at an earlier
    frame forces a 0 at frame [i]. *)
Theorem window_flags_visited_prefix (o : Obstacle D) (i : nat) :
  (i < W)%nat ->
  (forall j, (j <= i)%nat ->
             frame_visited (history_start_time cfg o) (feature_history o) j
             = true) ->
  let has := has_history (snd (scan_history cfg o)) in
  (has !! i = Some 1%Z \/ has !! i = Some 0%Z)
  /\ (has !! i = Some 1%Z
      <-> forall j f, (j <= i)%nat -> feature_history o !! j = Some f ->
                      usable f = true)
  /\ (forall k, (k <= i)%nat -> has !! k = Some 0%Z -> has !! i = Some 0%Z).
Proof.
  intros Hi Hvis has.
  assert (Hprefix : forall k, (k <= i)%nat ->
            is_flag (has !! k)
            /\ (has !! k = Some 1%Z
                <-> forall j f, (j <= k)%nat ->
                                feature_history o !! j = Some f ->
                                usable f = true)).
  { intros k Hk. subst has. unfold scan_history.
    destruct (history_loop_has_prefix
                (start := obstacle_timestamp o
                          - FLAGS_prediction_trajectory_time_length cfg)
                (point_x (position (latest_feature o)),
                 point_y (position (latest_feature o)))
                (velocity_heading_value (latest_feature o))
                (fs := feature_history o) (i := 0)
                (st := (init_samples, init_window cfg (latest_feature o)))
                (d := k)) as [Hflag Hiff].
    - lia.
    - cbn [snd init_window has_history]. by rewrite length_replicate.
    - intros j Hj. cbn [snd init_window has_history].
      apply lookup_replicate. split; [done|lia].
    - by left.
    - intros e He. apply Hvis. lia.
    - cbn [Nat.add] in Hflag, Hiff. split; [done|]. rewrite Hiff.
      unfold prev_ok. intuition (congruence || lia || eauto). }
  destruct (Hprefix i ltac:(lia)) as [Hflag Hiff].
  split; [done|]. split; [done|]. intros k Hk Hzero.
  destruct Hflag as [Hone|?]; [|done]. exfalso.
  destruct (Hprefix k Hk) as [_ Hiffk].
  assert (Hk1 : has !! k = Some 1%Z).
  { apply Hiffk. intros j f Hj Hf. apply (proj1 Hiff Hone j f); [lia|done]. }
  rewrite Hk1 in Hzero. done.
Qed.
End WindowFlags.

(** ** Writes to lane sequences do not change what extraction reads *)

Section Relane.
Context {D : Type} {ops : DoubleOps D}.
Variable cfg : Config D.
Variable GetObstacle : Z -> option (Obstacle D).
Variable go_model_Run cutin_model_Run : list (list D) -> list (list D) -> D * D.
Local Open Scope double_scope.

Lemma lane_sequences_relane (o : Obstacle D) l :
  has_graph o = true -> lane_sequences (relane o l) = l.
Proof.
  destruct o as [i f older]. destruct f as [? ? ? ? ? ? ? ? [[lf [g|]]|]]; done.
Qed.

Lemma has_graph_relane (o : Obstacle D) l : has_graph (relane o l) = has_graph o.
Proof.
  destruct o as [i f older]. destruct f as [? ? ? ? ? ? ? ? [[lf [g|]]|]]; done.
Qed.

Lemma relane_relane (o : Obstacle D) l l' : relane (relane o l) l' = relane o l'.
Proof.
  destruct o as [i f older]. destruct f as [? ? ? ? ? ? ? ? [[lf [g|]]|]]; done.
Qed.

Lemma relane_same (o : Obstacle D) :
  has_graph o = true -> relane o (lane_sequences o) = o.
Proof.
  destruct o as [i f older].
  destruct f as [? ? ? ? ? ? ? ? [[lf [[g]|]]|]]; done.
Qed.

Lemma with_lane_sequences_fields (f : Feature D) l :
  let f' := with_lane_sequences f l in
  IsInitialized f' = IsInitialized f /\ timestamp f' = timestamp f
  /\ position f' = position f /\ velocity f' = velocity f
  /\ acceleration f' = acceleration f
  /\ velocity_heading f' = velocity_heading f
  /\ speed f' = speed f /\ length_ f' = length_ f
  /\ lane_feature_of f' = lane_feature_of f.
Proof. destruct f as [? ? ? ? ? ? ? ? [[lf [g|]]|]]; done. Qed.

Lemma push_samples_relane (f : Feature D) l s :
  push_samples (with_lane_sequences f l) s = push_samples f s.
Proof.
  destruct (with_lane_sequences_fields f l)
    as (_ & Hts & _ & _ & _ & _ & Hsp & _ & Hlf).
  unfold push_samples. by rewrite Hlf, Hts, Hsp.
Qed.

Lemma fill_frame_relane pos heading (f : Feature D) l i w :
  fill_frame cfg pos heading (with_lane_sequences f l) i w
  = fill_frame cfg pos heading f i w.
Proof.
  destruct (with_lane_sequences_fields f l)
    as (_ & Hts & Hp & Hv & Ha & Hh & _ & _ & _).
  unfold fill_frame, velocity_heading_value. by rewrite Hts, Hp, Hv, Ha, Hh.
Qed.

Lemma scan_history_relane (o : Obstacle D) l :
  scan_history cfg (relane o l) = scan_history cfg o.
Proof.
  destruct (with_lane_sequences_fields (latest_feature o) l)
    as (Hi & Hts & Hp & _ & _ & Hh & _ & _ & _).
  unfold scan_history, relane, feature_history, obstacle_timestamp,
    velocity_heading_value, init_window.
  cbn [latest_feature older_features history_loop].
  by rewrite Hi, Hts, Hp, Hh, push_samples_relane, fill_frame_relane.
Qed.

Lemma SetObstacleFeatureValues_relane (o : Obstacle D) l :
  SetObstacleFeatureValues cfg (relane o l) = SetObstacleFeatureValues cfg o.
Proof.
  unfold SetObstacleFeatureValues. by rewrite scan_history_relane.
Qed.

Lemma lane_point_loop_position (f f' : Feature D) heading pts acc :
  position f' = position f ->
  lane_point_loop cfg f' heading pts acc = lane_point_loop cfg f heading pts acc.
Proof.
  intros Hp. revert acc. induction pts as [|p ps IH]; intros acc; simpl; [done|].
  rewrite !IH. unfold lane_point_values. by rewrite Hp.
Qed.

Lemma lane_segment_loop_position (f f' : Feature D) heading segs acc :
  position f' = position f ->
  lane_segment_loop cfg f' heading segs acc
  = lane_segment_loop cfg f heading segs acc.
Proof.
  intros Hp. revert acc. induction segs as [|g gs IH]; intros acc; simpl; [done|].
  by rewrite IH, (lane_point_loop_position _ _ _ Hp).
Qed.

Lemma SetLaneFeatureValues_relane (o : Obstacle D) l s :
  SetLaneFeatureValues cfg (relane o l) s = SetLaneFeatureValues cfg o s.
Proof.
  destruct (with_lane_sequences_fields (latest_feature o) l)
    as (Hi & _ & Hp & _ & _ & Hh & _ & _ & _).
  unfold SetLaneFeatureValues, relane, velocity_heading_value.
  cbn [latest_feature].
  by rewrite Hi, Hh, (lane_segment_loop_position _ _ _ Hp), Hp.
Qed.

Lemma ExtractFeatureValues_relane (o : Obstacle D) l s fv :
  ExtractFeatureValues cfg GetObstacle (relane o l) s fv
  = ExtractFeatureValues cfg GetObstacle o s fv.
Proof.
  unfold ExtractFeatureValues.
  by rewrite SetObstacleFeatureValues_relane, SetLaneFeatureValues_relane.
Qed.

Lemma evaluate_sequence_relane (o : Obstacle D) l i s :
  evaluate_sequence cfg GetObstacle go_model_Run cutin_model_Run (relane o l) i s
  = evaluate_sequence cfg GetObstacle go_model_Run cutin_model_Run o i s.
Proof. unfold evaluate_sequence. by rewrite ExtractFeatureValues_relane. Qed.
End Relane.

(** ** The interaction block *)

Section InteractionBlock.
Context {D : Type} {ops : DoubleOps D}.
Variable cfg : Config D.
Variable GetObstacle : Z -> option (Obstacle D).
Local Open Scope double_scope.

Local Abbreviation defaultS := (FLAGS_default_s_if_no_obstacle_in_lane_sequence cfg).
Local Abbreviation defaultL := (FLAGS_default_l_if_no_obstacle_in_lane_sequence cfg).

Lemma nearest_step_ids l fb n :
  id_from l (fst fb) /\ id_from l (snd fb) ->
  id_from (l ++ [n]) (fst (nearest_step fb n))
  /\ id_from (l ++ [n]) (snd (nearest_step fb n)).
Proof.
  assert (Hmono : forall x, id_from l x -> id_from (l ++ [n]) x).
  { intros x [Hx|(m & Hm & Hx)]; [by left|right].
    exists m. split; [|done]. apply elem_of_app. by left. }
  assert (Hnew : id_from (l ++ [n]) (take_over n)).
  { right. exists n. split; [|done]. apply elem_of_app. right.
    apply list_elem_of_here. }
  intros [Hf Hb]. unfold nearest_step.
  repeat case_match; simpl; auto.
Qed.

Lemma nearest_obstacles_ids_from l0 l fb :
  id_from l0 (fst fb) /\ id_from l0 (snd fb) ->
  id_from (l0 ++ l) (fst (fold_left nearest_step l fb))
  /\ id_from (l0 ++ l) (snd (fold_left nearest_step l fb)).
Proof.
  revert l0 fb. induction l as [|n l IH]; intros l0 fb H; simpl.
  - by rewrite app_nil_r.
  - replace (l0 ++ n :: l) with ((l0 ++ [n]) ++ l) by (by rewrite <- app_assoc).
    apply IH. by apply nearest_step_ids.
Qed.

Lemma nearest_obstacles_ids l :
  id_from l (fst (nearest_obstacles cfg l))
  /\ id_from l (snd (nearest_obstacles cfg l)).
Proof.
  apply (nearest_obstacles_ids_from (l0 := [])). split; by left.
Qed.

Lemma neighbour_values_total l n :
  (forall m, m ∈ l -> is_Some (GetObstacle (nearby_id m))) ->
  id_from l n ->
  exists len spd, neighbour_values GetObstacle n = Some [no_s n; no_l n; len; spd]
                  /\ neighbour_spec GetObstacle n len spd.
Proof.
  intros Hres Hid. unfold neighbour_values, neighbour_spec.
  destruct Hid as [Hnone|(m & Hm & Hsome)].
  - rewrite Hnone. by exists d0, d0.
  - rewrite Hsome. destruct (Hres m Hm) as [obs Hobs]. rewrite Hobs.
    exists (length_ (latest_feature obs)), (speed (latest_feature obs)).
    split; [done|]. by exists obs.
Qed.

Lemma SetInteractionFeatureValues_total (s : LaneSequence D) :
  ids_resolve GetObstacle s ->
  let fb := nearest_obstacles cfg (nearby_obstacle s) in
  exists flen fspeed blen bspeed,
    SetInteractionFeatureValues cfg GetObstacle s
    = Some [no_s (fst fb); no_l (fst fb); flen; fspeed;
            no_s (snd fb); no_l (snd fb); blen; bspeed]
    /\ neighbour_spec GetObstacle (fst fb) flen fspeed
    /\ neighbour_spec GetObstacle (snd fb) blen bspeed.
Proof.
  intros Hres fb. destruct (nearest_obstacles_ids (nearby_obstacle s)) as [Hf Hb].
  destruct (neighbour_values_total Hres Hf) as (flen & fspeed & Hfv & Hfs).
  destruct (neighbour_values_total Hres Hb) as (blen & bspeed & Hbv & Hbs).
  exists flen, fspeed, blen, bspeed. unfold SetInteractionFeatureValues.
  fold fb in Hfv, Hbv |- *. by rewrite Hfv, Hbv.
Qed.

Lemma SetInteractionFeatureValues_length (s : LaneSequence D) v :
  SetInteractionFeatureValues cfg GetObstacle s = Some v ->
  length v = INTERACTION_FEATURE_SIZE.
Proof.
  unfold SetInteractionFeatureValues, neighbour_values.
  repeat case_match; intros; simplify_eq; done.
Qed.

Section WithOrder.
Hypothesis dlt_irrefl : forall x : D, (x <? x) = false.
Hypothesis dlt_trans :
  forall x y z : D, (x <? y) = true -> (y <? z) = true -> (x <? z) = true.

Lemma nearest_step_state fb n bf bb :
  forward_state cfg bf (fst fb) -> backward_state cfg bb (snd fb) ->
  forward_state cfg (bf || forward_candidate cfg n) (fst (nearest_step fb n))
  /\ backward_state cfg (bb || backward_candidate cfg n) (snd (nearest_step fb n)).
Proof.
  intros Hf Hb. unfold nearest_step, forward_candidate, backward_candidate.
  destruct (no_s n <? d0) eqn:Hneg; simpl.
  - rewrite orb_false_r. destruct (no_s n >? no_s (snd fb)) eqn:Hgt; simpl.
    + split; [done|]. destruct bb; simpl in *.
      * split; [done|]. destruct Hb as [_ Hb]. by eapply dlt_trans.
      * destruct Hb as (_ & Hs & _). rewrite Hs in Hgt. rewrite Hgt.
        simpl. done.
    + split; [done|]. destruct bb; simpl in *; [done|].
      destruct Hb as (? & Hs & ?). rewrite Hs in Hgt. by rewrite Hgt.
  - rewrite orb_false_r. destruct (no_s n <? no_s (fst fb)) eqn:Hlt; simpl.
    + split; [|done]. destruct bf; simpl in *.
      * split; [done|]. destruct Hf as [_ Hf]. by eapply dlt_trans.
      * destruct Hf as (_ & Hs & _). rewrite Hs in Hlt. rewrite Hlt.
        simpl. done.
    + split; [|done]. destruct bf; simpl in *; [done|].
      destruct Hf as (? & Hs & ?). rewrite Hs in Hlt. by rewrite Hlt.
Qed.

Lemma nearest_fold_state l fb bf bb :
  forward_state cfg bf (fst fb) -> backward_state cfg bb (snd fb) ->
  forward_state cfg (bf || existsb (forward_candidate cfg) l)
                (fst (fold_left nearest_step l fb))
  /\ backward_state cfg (bb || existsb (backward_candidate cfg) l)
                    (snd (fold_left nearest_step l fb)).
Proof.
  revert fb bf bb. induction l as [|n l IH]; intros fb bf bb Hf Hb; simpl.
  - by rewrite !orb_false_r.
  - destruct (nearest_step_state n Hf Hb) as [Hf' Hb'].
    rewrite !orb_assoc. by apply IH.
Qed.

Lemma existsb_false {A} (p : A -> bool) (l : list A) :
  existsb p l = false <-> forall x, x ∈ l -> p x = false.
Proof.
  induction l as [|a l IH]; simpl.
  - split; [|done]. intros _ x Hx. by apply elem_of_nil in Hx.
  - rewrite orb_false_iff, IH. split.
    + intros [Ha Hl] x Hx. apply elem_of_cons in Hx as [->|Hx]; auto.
    + intros H. split; [apply H; left|intros x Hx; apply H; by right].
Qed.

Lemma forward_candidate_false n :
  forward_candidate cfg n = false
  <-> ~ ((no_s n <? d0) = false /\ (no_s n <? defaultS) = true).
Proof.
  unfold forward_candidate.
  destruct (no_s n <? d0), (no_s n <? defaultS); simpl;
    intuition congruence.
Qed.

Lemma backward_candidate_false n :
  backward_candidate cfg n = false
  <-> ~ ((no_s n <? d0) = true /\ (no_s n >? - defaultS) = true).
Proof.
  unfold backward_candidate.
  destruct (no_s n <? d0), (no_s n >? - defaultS); simpl;
    intuition congruence.
Qed.

(** C4, as the code has it: the block has exactly the 8 values forward
    s, l, length, speed, backward s, l, length, speed (length and speed
    of the looked-up obstacle, or 0 and 0 without an id), and the
    forward default pair is emitted exactly when no entry has a
    non-negative s below the default, the backward default pair exactly
    when no entry has a negative s above minus the default. *)
Theorem interaction_block_layout (s : LaneSequence D) :
  ids_resolve GetObstacle s ->
  let fb := nearest_obstacles cfg (nearby_obstacle s) in
  exists flen fspeed blen bspeed,
    SetInteractionFeatureValues cfg GetObstacle s
    = Some [no_s (fst fb); no_l (fst fb); flen; fspeed;
            no_s (snd fb); no_l (snd fb); blen; bspeed]
    /\ neighbour_spec GetObstacle (fst fb) flen fspeed
    /\ neighbour_spec GetObstacle (snd fb) blen bspeed
    /\ ((no_s (fst fb) = defaultS /\ no_l (fst fb) = defaultL)
        <-> forall n, n ∈ nearby_obstacle s ->
              ~ ((no_s n <? d0) = false /\ (no_s n <? defaultS) = true))
    /\ ((no_s (snd fb) = - defaultS /\ no_l (snd fb) = defaultL)
        <-> forall n, n ∈ nearby_obstacle s ->
              ~ ((no_s n <? d0) = true /\ (no_s n >? - defaultS) = true)).
Proof.
  intros Hres fb.
  destruct (SetInteractionFeatureValues_total Hres)
    as (flen & fspeed & blen & bspeed & Hv & Hfs & Hbs).
  exists flen, fspeed, blen, bspeed. fold fb in Hv, Hfs, Hbs.
  repeat (split; [done|]).
  destruct (nearest_fold_state (nearby_obstacle s)
              (fb := (init_forward cfg, init_backward cfg))
              (bf := false) (bb := false)) as [Hf Hb]; [done|done|].
  fold (nearest_obstacles cfg (nearby_obstacle s)) in Hf, Hb. fold fb in Hf, Hb.
  simpl in Hf, Hb.
  assert (Hfc : (forall n, n ∈ nearby_obstacle s ->
                   ~ ((no_s n <? d0) = false /\ (no_s n <? defaultS) = true))
                <-> existsb (forward_candidate cfg) (nearby_obstacle s) = false).
  { rewrite existsb_false.
    split; intros H n Hn; apply forward_candidate_false, H, Hn. }
  assert (Hbc : (forall n, n ∈ nearby_obstacle s ->
                   ~ ((no_s n <? d0) = true
                      /\ (no_s n >? - defaultS) = true))
                <-> existsb (backward_candidate cfg) (nearby_obstacle s) = false).
  { rewrite existsb_false.
    split; intros H n Hn; apply backward_candidate_false, H, Hn. }
  rewrite Hfc, Hbc. split.
  - destruct (existsb (forward_candidate cfg) (nearby_obstacle s)); simpl in Hf.
    + split; [|done]. intros [Hs _]. destruct Hf as [_ Hf].
      rewrite Hs, dlt_irrefl in Hf. done.
    + by destruct Hf as (_ & ? & ?).
  - destruct (existsb (backward_candidate cfg) (nearby_obstacle s)); simpl in Hb.
    + split; [|done]. intros [Hs _]. destruct Hb as [_ Hb].
      rewrite Hs, dlt_irrefl in Hb. done.
    + by destruct Hb as (_ & ? & ?).
Qed.
End WithOrder.
End InteractionBlock.

(** ** Feature assembly *)

Section Assembly.
Context {D : Type} {ops : DoubleOps D}.
Variable cfg : Config D.
Variable GetObstacle : Z -> option (Obstacle D).
Local Open Scope double_scope.

Local Abbreviation O_SIZE := (OBSTACLE_FEATURE_SIZE cfg).
Local Abbreviation L_SIZE := (SINGLE_LANE_FEATURE_SIZE * LANE_POINTS_SIZE cfg)%nat.

Lemma SaveOfflineFeatures_fields (s : LaneSequence D) fv :
  let s' := SaveOfflineFeatures s fv in
  lane_segment s' = lane_segment s /\ vehicle_on_lane s' = vehicle_on_lane s
  /\ nearby_obstacle s' = nearby_obstacle s /\ probability s' = probability s
  /\ time_to_lane_center s' = time_to_lane_center s
  /\ mlp_features s' = mlp_features s ++ fv.
Proof.
  unfold SaveOfflineFeatures. revert s.
  induction fv as [|v fv IH]; intros s; simpl.
  - by rewrite app_nil_r.
  - destruct (IH (add_mlp_features s v)) as (H1 & H2 & H3 & H4 & H5 & H6).
    rewrite H1, H2, H3, H4, H5, H6. simpl. by rewrite <- app_assoc.
Qed.

(** The lane block is empty when no lane point is wanted. *)
Lemma lane_point_loop_full f heading pts acc :
  (lane_target cfg <= length acc)%nat ->
  lane_point_loop cfg f heading pts acc = acc.
Proof.
  intros H. destruct pts; simpl; [done|].
  by destruct (Nat.leb_spec (lane_target cfg) (length acc)); [|lia].
Qed.

Lemma lane_segment_loop_full f heading segs acc :
  (lane_target cfg <= length acc)%nat ->
  lane_segment_loop cfg f heading segs acc = acc.
Proof.
  intros H. destruct segs; simpl; [done|].
  by destruct (Nat.leb_spec (lane_target cfg) (length acc)); [|lia].
Qed.

Lemma extrapolate_loop_full fuel acc :
  (lane_target cfg <= length acc)%nat -> extrapolate_loop cfg fuel acc = acc.
Proof.
  intros H. destruct fuel; simpl; [done|].
  destruct (Nat.ltb_spec (length acc) (lane_target cfg)); [lia|].
  by rewrite andb_false_r.
Qed.

Lemma SetLaneFeatureValues_no_points (o : Obstacle D) s :
  LANE_POINTS_SIZE cfg = 0%nat -> SetLaneFeatureValues cfg o s = [].
Proof.
  intros HL. unfold SetLaneFeatureValues.
  assert (Ht : (lane_target cfg <= length (@nil D))%nat).
  { unfold lane_target. rewrite HL. simpl. lia. }
  repeat case_match; try done.
  rewrite (lane_segment_loop_full _ _ _ Ht). by apply extrapolate_loop_full.
Qed.

(** The outcome of [ExtractFeatureValues] on an empty vector, block by
    block. *)
Lemma ExtractFeatureValues_cases (o : Obstacle D) (s : LaneSequence D) :
  let obs := SetObstacleFeatureValues cfg o in
  let lanes := SetLaneFeatureValues cfg o s in
  ExtractFeatureValues cfg GetObstacle o s []
  = if negb (length obs =? O_SIZE)%nat then Some (s, [])
    else match SetInteractionFeatureValues cfg GetObstacle s with
         | None => None
         | Some inter =>
             if negb (length lanes =? L_SIZE)%nat then Some (s, obs ++ inter)
             else if FLAGS_prediction_offline_mode cfg
                  then Some (SaveOfflineFeatures s (obs ++ inter ++ lanes),
                             obs ++ inter ++ lanes)
                  else Some (s, obs ++ inter ++ lanes)
         end.
Proof.
  intros obs lanes. unfold ExtractFeatureValues. fold obs lanes.
  destruct (negb (length obs =? O_SIZE)%nat); [done|].
  destruct (SetInteractionFeatureValues cfg GetObstacle s) as [inter|] eqn:Hi;
    [|done].
  rewrite (SetInteractionFeatureValues_length Hi). simpl.
  rewrite <- !app_assoc. done.
Qed.

(** C10: on an empty output vector and with every scanned id known to the
    container, [ExtractFeatureValues] returns a vector made of whole
    blocks: nothing, the obstacle block, the obstacle and interaction
    blocks, or all three, each appended after its own size check.  Its
    length is 0, [OBSTACLE_FEATURE_SIZE], that plus
    [INTERACTION_FEATURE_SIZE], or the full declared sum, and it is the
    full sum exactly when the obstacle block, the interaction block and
    the lane block each passed its size check. *)
Theorem extract_length_cases (o : Obstacle D) (s : LaneSequence D) :
  ids_resolve GetObstacle s ->
  exists s' fv inter,
    ExtractFeatureValues cfg GetObstacle o s [] = Some (s', fv)
    /\ SetInteractionFeatureValues cfg GetObstacle s = Some inter
    /\ (fv = []
        \/ fv = SetObstacleFeatureValues cfg o ++ inter
        \/ fv = SetObstacleFeatureValues cfg o ++ inter
                ++ SetLaneFeatureValues cfg o s)
    /\ (length fv = 0%nat \/ length fv = O_SIZE
        \/ length fv = (O_SIZE + INTERACTION_FEATURE_SIZE)%nat
        \/ length fv = feature_size cfg)
    /\ (length fv = feature_size cfg
        <-> length (SetObstacleFeatureValues cfg o) = O_SIZE
            /\ length inter = INTERACTION_FEATURE_SIZE
            /\ length (SetLaneFeatureValues cfg o s) = L_SIZE).
Proof.
  intros Hres. rewrite ExtractFeatureValues_cases.
  destruct (SetInteractionFeatureValues_total cfg Hres)
    as (flen & fspeed & blen & bspeed & Hi & _).
  rewrite Hi.
  set (inter := [_; _; _; _; _; _; _; _]) in *.
  assert (Hlen_i : length inter = 8%nat) by done.
  unfold feature_size, INTERACTION_FEATURE_SIZE in *.
  destruct (Nat.eqb_spec (length (SetObstacleFeatureValues cfg o)) O_SIZE)
    as [Ho|Ho]; cbn [negb].
  2:{ exists s, [], inter. split; [done|]. split; [done|].
      split; [by left|]. split; [by left|]. cbn [length].
      split; [lia|]. intros (? & _); done. }
  destruct (Nat.eqb_spec (length (SetLaneFeatureValues cfg o s)) L_SIZE)
    as [Hl|Hl]; cbn [negb].
  2:{ eexists s, _, inter. split; [done|]. split; [done|].
      split; [by right; left|]. rewrite length_app, Ho, Hlen_i.
      split; [by right; right; left|]. split.
      - intros Heq. assert (HL : LANE_POINTS_SIZE cfg = 0%nat).
        { unfold SINGLE_LANE_FEATURE_SIZE in Heq. lia. }
        rewrite (SetLaneFeatureValues_no_points _ _ HL), HL in Hl. done.
      - intros (_ & _ & ?). done. }
  assert (Hfull : length (SetObstacleFeatureValues cfg o ++ inter
                          ++ SetLaneFeatureValues cfg o s)
                  = (O_SIZE + 8 + L_SIZE)%nat).
  { rewrite !length_app, Ho, Hl, Hlen_i. lia. }
  destruct (FLAGS_prediction_offline_mode cfg); eexists _, _, inter;
    (split; [done|]); (split; [done|]); (split; [by right; right|]);
    rewrite Hfull; (split; [by right; right; right|]); (split; [|done]);
    intros _; done.
Qed.
End Assembly.

(** ** The evaluation loop *)

Section EvaluationLoop.
Context {D : Type} {ops : DoubleOps D}.
Variable cfg : Config D.
Variable GetObstacle : Z -> option (Obstacle D).
Variable go_model_Run cutin_model_Run : list (list D) -> list (list D) -> D * D.
Local Open Scope double_scope.

Local Abbreviation O_SIZE := (OBSTACLE_FEATURE_SIZE cfg).
Local Abbreviation L_SIZE := (SINGLE_LANE_FEATURE_SIZE * LANE_POINTS_SIZE cfg)%nat.
Local Abbreviation extract_values := (ExtractFeatureValues cfg GetObstacle).
Local Abbreviation eval_seq :=
  (evaluate_sequence cfg GetObstacle go_model_Run cutin_model_Run).
Local Abbreviation offline := (FLAGS_prediction_offline_mode cfg).
Local Abbreviation evaluate_all :=
  (evaluate_all cfg GetObstacle go_model_Run cutin_model_Run).

Lemma evaluate_loop_all (o : Obstacle D) :
  has_graph o = true ->
  forall todo done calls,
    evaluate_loop cfg GetObstacle go_model_Run cutin_model_Run
                  (length todo) (length done) (relane o (done ++ todo)) calls
    = match evaluate_all o (length done) todo with
      | None => None
      | Some (todo', cs) => Some (relane o (done ++ todo'), calls ++ cs)
      end.
Proof.
  intros Hg. induction todo as [|s rest IH]; intros done calls.
  - simpl. by rewrite !app_nil_r.
  - cbn [length evaluate_loop evaluate_all].
    rewrite lane_sequences_relane by done.
    rewrite list_lookup_middle by done.
    rewrite evaluate_sequence_relane.
    destruct (eval_seq o (length done) s) as [[s' c]|]; [|done].
    unfold store_lane_sequence.
    rewrite relane_relane, lane_sequences_relane by done.
    replace (<[length done := s']> (done ++ s :: rest))
      with ((done ++ [s']) ++ rest).
    2:{ rewrite <- app_assoc. simpl.
        replace (length done) with (length done + 0)%nat at 1 by lia.
        by rewrite insert_app_r. }
    replace (S (length done)) with (length (done ++ [s']))
      by (rewrite length_app; simpl; lia).
    rewrite IH.
    destruct (evaluate_all o (length (done ++ [s'])) rest) as [[rest' cs]|];
      [|done].
    by rewrite <- !app_assoc.
Qed.

(** [Evaluate] in terms of the loop body. *)
Lemma Evaluate_all (o : Obstacle D) sink :
  Evaluate cfg GetObstacle go_model_Run cutin_model_Run o sink
  = if negb (reaches_loop o) then Some (o, [], sink)
    else match evaluate_all o 0 (lane_sequences o) with
         | None => None
         | Some (ss', calls) =>
             if offline
             then Some (relane o ss', calls,
                        sink ++ [latest_feature (relane o ss')])
             else Some (relane o ss', calls, sink)
         end.
Proof.
  unfold Evaluate, reaches_loop.
  destruct (IsInitialized (latest_feature o)); [|done]. cbn [negb andb].
  pose proof (evaluate_loop_all (o := o)) as Hloop.
  pose proof (relane_same (o := o)) as Hsame.
  unfold has_graph, lane_sequences in *.
  destruct (lane (latest_feature o)) as [ln|]; [|done].
  destruct (lane_graph ln) as [g|]; [|done].
  destruct (length (lane_sequence g) =? 0)%nat; [done|]. cbn [negb].
  specialize (Hloop eq_refl (lane_sequence g) [] []).
  cbn [app length] in Hloop. rewrite Hsame in Hloop by done.
  rewrite Hloop. by destruct (evaluate_all o 0 (lane_sequence g)) as [[? ?]|].
Qed.

Lemma eval_seq_calls (o : Obstacle D) i s s' c :
  eval_seq o i s = Some (s', c) -> forall x, x ∈ c -> call_sequence x = i.
Proof.
  unfold evaluate_sequence. intros H x Hx.
  repeat case_match; simplify_eq; try (by apply elem_of_nil in Hx).
  all: apply list_elem_of_singleton in Hx; by subst x.
Qed.

Lemma evaluate_all_calls_from (o : Obstacle D) ss :
  forall i ss' cs, evaluate_all o i ss = Some (ss', cs) ->
                   forall x, x ∈ cs -> (i <= call_sequence x)%nat.
Proof.
  induction ss as [|s rest IH]; intros i ss' cs H x Hx; simpl in H.
  - simplify_eq. by apply elem_of_nil in Hx.
  - destruct (eval_seq o i s) as [[s' c]|] eqn:Hs; [|done].
    destruct (evaluate_all o (S i) rest) as [[rest' cs']|] eqn:Hr; [|done].
    simplify_eq. apply elem_of_app in Hx as [Hx|Hx].
    + rewrite (eval_seq_calls Hs Hx). lia.
    + specialize (IH _ _ _ Hr x Hx). lia.
Qed.

Lemma filter_none {A} (P : A -> Prop) `{!forall x, Decision (P x)} (l : list A) :
  (forall x, x ∈ l -> ~ P x) -> filter P l = [].
Proof.
  induction l as [|a l IH]; intros Hall; [done|].
  rewrite filter_cons_False by (apply Hall; left).
  apply IH. intros x Hx. apply Hall. by right.
Qed.

Lemma filter_all {A} (P : A -> Prop) `{!forall x, Decision (P x)} (l : list A) :
  (forall x, x ∈ l -> P x) -> filter P l = l.
Proof.
  induction l as [|a l IH]; intros Hall; [done|].
  rewrite filter_cons_True by (apply Hall; left).
  f_equal. apply IH. intros x Hx. apply Hall. by right.
Qed.

(** What the loop did for the sequence at position [j]. *)
Lemma evaluate_all_lookup (o : Obstacle D) ss :
  forall i ss' cs, evaluate_all o i ss = Some (ss', cs) ->
    length ss' = length ss
    /\ forall j s, ss !! j = Some s ->
         exists s' c, eval_seq o (i + j) s = Some (s', c)
                      /\ ss' !! j = Some s'
                      /\ filter (fun x => call_sequence x = (i + j)%nat) cs = c.
Proof.
  induction ss as [|s rest IH]; intros i ss' cs H; simpl in H.
  - simplify_eq. split; [done|]. intros j s Hj. done.
  - destruct (eval_seq o i s) as [[s' c]|] eqn:Hs; [|done].
    destruct (evaluate_all o (S i) rest) as [[rest' cs']|] eqn:Hr; [|done].
    simplify_eq. destruct (IH _ _ _ Hr) as [Hlen Hrest].
    split; [simpl; lia|]. intros j t Hj. rewrite filter_app.
    destruct j as [|j]; simpl in Hj.
    + simplify_eq. rewrite Nat.add_0_r. exists s', c.
      split; [done|]. split; [done|].
      rewrite filter_all by (intros x Hx; apply (eval_seq_calls Hs Hx)).
      rewrite filter_none; [by rewrite app_nil_r|].
      intros x Hx Heq. pose proof (evaluate_all_calls_from Hr Hx). lia.
    + destruct (Hrest j t Hj) as (t' & c' & Ht & Hl & Hf).
      replace (i + S j)%nat with (S i + j)%nat by lia.
      exists t', c'. split; [done|]. split; [done|].
      rewrite filter_none; [done|].
      intros x Hx Heq. rewrite (eval_seq_calls Hs Hx) in Heq. lia.
Qed.

Lemma evaluate_all_total (o : Obstacle D) ss :
  forall i, (forall j s, ss !! j = Some s -> is_Some (eval_seq o (i + j) s)) ->
            is_Some (evaluate_all o i ss).
Proof.
  induction ss as [|s rest IH]; intros i H; simpl; [done|].
  destruct (H 0%nat s eq_refl) as [[s' c] Hs]. rewrite Nat.add_0_r in Hs.
  rewrite Hs. destruct (IH (S i)) as [[rest' cs] Hr].
  - intros j t Hj. replace (S i + j)%nat with (i + S j)%nat by lia.
    by apply H.
  - by rewrite Hr.
Qed.
End EvaluationLoop.

(** ** What [Evaluate] does to each candidate *)

Section Candidates.
Context {D : Type} {ops : DoubleOps D}.
Variable cfg : Config D.
Variable GetObstacle : Z -> option (Obstacle D).
Variable go_model_Run cutin_model_Run : list (list D) -> list (list D) -> D * D.
Local Open Scope double_scope.

Local Abbreviation O_SIZE := (OBSTACLE_FEATURE_SIZE cfg).
Local Abbreviation L_SIZE := (SINGLE_LANE_FEATURE_SIZE * LANE_POINTS_SIZE cfg)%nat.
Local Abbreviation extract_values := (ExtractFeatureValues cfg GetObstacle).
Local Abbreviation eval_seq :=
  (evaluate_sequence cfg GetObstacle go_model_Run cutin_model_Run).
Local Abbreviation eval_all :=
  (evaluate_all cfg GetObstacle go_model_Run cutin_model_Run).
Local Abbreviation offline := (FLAGS_prediction_offline_mode cfg).

Lemma reaches_loop_has_graph (o : Obstacle D) :
  reaches_loop o = true -> has_graph o = true.
Proof.
  unfold reaches_loop, has_graph, lane_sequences.
  destruct (IsInitialized (latest_feature o)); [|done].
  destruct (lane (latest_feature o)) as [ln|]; [|done].
  by destruct (lane_graph ln).
Qed.

Lemma ExtractFeatureValues_total (o : Obstacle D) s :
  ids_resolve GetObstacle s -> is_Some (extract_values o s []).
Proof.
  intros Hres. rewrite ExtractFeatureValues_cases.
  destruct (SetInteractionFeatureValues_total cfg Hres)
    as (flen & fspeed & blen & bspeed & Hi & _).
  rewrite Hi. repeat case_match; done.
Qed.

(** Either the vector is short and the sequence untouched, or it has the
    full length and the sequence was written in offline mode only. *)
Lemma ExtractFeatureValues_inv (o : Obstacle D) s s1 fv :
  extract_values o s [] = Some (s1, fv) ->
  (length fv <> feature_size cfg /\ s1 = s)
  \/ (length fv = feature_size cfg
      /\ s1 = if offline then SaveOfflineFeatures s fv else s).
Proof.
  rewrite ExtractFeatureValues_cases. unfold feature_size.
  destruct (Nat.eqb_spec (length (SetObstacleFeatureValues cfg o)) O_SIZE)
    as [Ho|Ho]; cbn [negb].
  2:{ intros ?; simplify_eq. left. split; [|done].
      unfold INTERACTION_FEATURE_SIZE. cbn [length]. lia. }
  destruct (SetInteractionFeatureValues cfg GetObstacle s) as [inter|] eqn:Hi;
    [|done].
  pose proof (SetInteractionFeatureValues_length Hi) as Hlen_i.
  destruct (Nat.eqb_spec (length (SetLaneFeatureValues cfg o s)) L_SIZE)
    as [Hl|Hl]; cbn [negb].
  2:{ intros ?; simplify_eq. left. split; [|done].
      rewrite length_app, Ho, Hlen_i. intros Heq.
      assert (HL : LANE_POINTS_SIZE cfg = 0%nat).
      { unfold SINGLE_LANE_FEATURE_SIZE in Heq. lia. }
      rewrite (SetLaneFeatureValues_no_points _ _ HL), HL in Hl. done. }
  assert (Hfull : length (SetObstacleFeatureValues cfg o ++ inter
                          ++ SetLaneFeatureValues cfg o s)
                  = (O_SIZE + INTERACTION_FEATURE_SIZE + L_SIZE)%nat).
  { rewrite !length_app, Ho, Hl, Hlen_i. lia. }
  destruct offline; intros ?; simplify_eq; by right.
Qed.

Lemma eval_seq_wrong_length (o : Obstacle D) i s s1 fv :
  extract_values o s [] = Some (s1, fv) -> length fv <> feature_size cfg ->
  eval_seq o i s = Some (set_probability s d0, []).
Proof.
  intros He Hlen. unfold evaluate_sequence. rewrite He.
  destruct (ExtractFeatureValues_inv He) as [[_ ->]|[? _]]; [|done].
  by destruct (Nat.eqb_spec (length fv) (feature_size cfg)).
Qed.

Lemma eval_seq_offline (o : Obstacle D) i s s1 fv :
  offline = true ->
  extract_values o s [] = Some (s1, fv) -> length fv = feature_size cfg ->
  eval_seq o i s = Some (SaveOfflineFeatures s fv, []).
Proof.
  intros Hoff He Hlen. unfold evaluate_sequence. rewrite He.
  destruct (ExtractFeatureValues_inv He) as [[? _]|[_ ->]]; [done|].
  rewrite Hoff.
  by destruct (Nat.eqb_spec (length fv) (feature_size cfg)).
Qed.

Lemma eval_seq_online (o : Obstacle D) i s s1 fv :
  offline = false -> (0 < O_SIZE)%nat -> (0 < LANE_POINTS_SIZE cfg)%nat ->
  extract_values o s [] = Some (s1, fv) -> length fv = feature_size cfg ->
  exists obs_feature_mat lane_feature_mat,
    VectorToMatrixXf_row fv 0 O_SIZE = Some obs_feature_mat
    /\ VectorToMatrixXf fv (O_SIZE + INTERACTION_FEATURE_SIZE) (length fv)
                        SINGLE_LANE_FEATURE_SIZE (LANE_POINTS_SIZE cfg)
       = Some lane_feature_mat
    /\ let k := if vehicle_on_lane s then GoModel else CutinModel in
       let model_output :=
         run_model go_model_Run cutin_model_Run k
                   lane_feature_mat obs_feature_mat in
       eval_seq o i s
       = Some (set_time_to_lane_center
                 (set_probability s (fst model_output)) (snd model_output),
               [mkModelCall k i lane_feature_mat obs_feature_mat]).
Proof.
  intros Hon HO HL He Hlen. unfold evaluate_sequence. rewrite He.
  destruct (ExtractFeatureValues_inv He) as [[? _]|[_ ->]]; [done|].
  rewrite Hon. cbn [negb].
  destruct (Nat.eqb_spec (length fv) (feature_size cfg)) as [_|?]; [|done].
  cbn [negb]. unfold VectorToMatrixXf_row, VectorToMatrixXf.
  unfold feature_size, INTERACTION_FEATURE_SIZE, SINGLE_LANE_FEATURE_SIZE in *.
  destruct (Nat.ltb_spec 0 O_SIZE) as [_|?]; [|lia]. cbn [negb].
  destruct (Nat.leb_spec O_SIZE (length fv)) as [_|?]; [|lia]. cbn [negb].
  destruct (Nat.ltb_spec (O_SIZE + 8) (length fv)) as [_|?]; [|lia]. cbn [negb].
  destruct (Nat.leb_spec (length fv) (length fv)) as [_|?]; [|lia]. cbn [negb].
  destruct (Nat.eqb_spec (length fv - (O_SIZE + 8)) (4 * LANE_POINTS_SIZE cfg))
    as [_|?]; [|lia]. cbn [negb].
  eexists _, _. split; [done|]. split; done.
Qed.
End Candidates.

Section EvaluateTheorems.
Context {D : Type} {ops : DoubleOps D}.
Variable cfg : Config D.
Variable GetObstacle : Z -> option (Obstacle D).
Variable go_model_Run cutin_model_Run : list (list D) -> list (list D) -> D * D.
Local Open Scope double_scope.

Local Abbreviation O_SIZE := (OBSTACLE_FEATURE_SIZE cfg).
Local Abbreviation extract_values := (ExtractFeatureValues cfg GetObstacle).
Local Abbreviation eval_seq :=
  (evaluate_sequence cfg GetObstacle go_model_Run cutin_model_Run).
Local Abbreviation eval_all :=
  (evaluate_all cfg GetObstacle go_model_Run cutin_model_Run).
Local Abbreviation offline := (FLAGS_prediction_offline_mode cfg).
Local Abbreviation evaluate :=
  (Evaluate cfg GetObstacle go_model_Run cutin_model_Run).

Lemma eval_all_no_samples (o : Obstacle D) ss :
  O_SIZE <> 0%nat -> lane_samples cfg o = [] ->
  forall i, eval_all o i ss = Some (map (fun s => set_probability s d0) ss, []).
Proof.
  intros HO Hnil. induction ss as [|s rest IH]; intros i; simpl; [done|].
  assert (He : extract_values o s [] = Some (s, [])).
  { rewrite ExtractFeatureValues_cases, SetObstacleFeatureValues_empty by done.
    cbn [length]. by destruct (Nat.eqb_spec 0 O_SIZE). }
  rewrite (eval_seq_wrong_length go_model_Run cutin_model_Run i He).
  - by rewrite IH.
  - unfold feature_size, INTERACTION_FEATURE_SIZE. cbn [length]. lia.
Qed.

(** C1, as the code has it: when no visited observation carries lane
    attributes, the obstacle block is empty and [Evaluate] runs no model;
    if it gets past its early returns it writes probability 0 onto every
    candidate lane sequence (each vector has the wrong length), otherwise
    it leaves the obstacle as it was. *)
Theorem no_lane_attributes_zeroes_candidates (o : Obstacle D) sink :
  O_SIZE <> 0%nat ->
  (forall f, f ∈ visited cfg o -> lane_feature_of f = None) ->
  SetObstacleFeatureValues cfg o = []
  /\ exists o' out,
       evaluate o sink = Some (o', [], out)
       /\ (reaches_loop o = false -> o' = o /\ out = sink)
       /\ (reaches_loop o = true ->
           lane_sequences o'
           = map (fun s => set_probability s d0) (lane_sequences o)
           /\ out = if offline then sink ++ [latest_feature o'] else sink).
Proof.
  intros HO Hnone. apply lane_samples_nil in Hnone.
  split; [by apply SetObstacleFeatureValues_empty|].
  rewrite Evaluate_all. destruct (reaches_loop o) eqn:Hr; cbn [negb].
  - rewrite eval_all_no_samples by done.
    pose proof (reaches_loop_has_graph Hr) as Hg.
    destruct offline; eexists _, _; (split; [done|]); (split; [done|]);
      intros _; by rewrite lane_sequences_relane.
  - exists o, sink. by repeat split.
Qed.

Lemma eval_all_some (o : Obstacle D) :
  (offline = false -> (0 < O_SIZE)%nat /\ (0 < LANE_POINTS_SIZE cfg)%nat) ->
  (forall s, s ∈ lane_sequences o -> ids_resolve GetObstacle s) ->
  is_Some (eval_all o 0 (lane_sequences o)).
Proof.
  intros Hsizes Hres. apply evaluate_all_total. intros j s Hj.
  destruct (ExtractFeatureValues_total cfg o
              (Hres s (list_elem_of_lookup_2 _ _ _ Hj))) as [[s1 fv] He].
  destruct (decide (length fv = feature_size cfg)) as [Hlen|Hlen].
  - destruct offline eqn:Hoff.
    + by rewrite (eval_seq_offline go_model_Run cutin_model_Run _ Hoff He Hlen).
    + destruct (Hsizes eq_refl) as [HO HL].
      destruct (eval_seq_online go_model_Run cutin_model_Run
                  (0 + j) Hoff HO HL He Hlen) as (? & ? & _ & _ & ->).
      done.
  - by rewrite (eval_seq_wrong_length go_model_Run cutin_model_Run _ He Hlen).
Qed.

(** C6, as the code has it: outside offline mode, with positive block
    sizes and every scanned id known to the container, [Evaluate] returns;
    a candidate whose assembled vector has the wrong length gets
    probability 0 and no model run, and every candidate whose vector has
    the declared length is run through the go model (vehicle on lane) or
    the cut-in model and receives the two model outputs. *)
Theorem online_wrong_length_zeroed_others_dispatched (o : Obstacle D) sink :
  offline = false ->
  (0 < O_SIZE)%nat -> (0 < LANE_POINTS_SIZE cfg)%nat ->
  reaches_loop o = true ->
  (forall s, s ∈ lane_sequences o -> ids_resolve GetObstacle s) ->
  exists o' calls,
    evaluate o sink = Some (o', calls, sink)
    /\ length (lane_sequences o') = length (lane_sequences o)
    /\ forall i s, lane_sequences o !! i = Some s ->
         exists fv,
           extract_values o s [] = Some (s, fv)
           /\ (length fv <> feature_size cfg ->
               lane_sequences o' !! i = Some (set_probability s d0)
               /\ filter (fun c => call_sequence c = i) calls = [])
           /\ (length fv = feature_size cfg ->
               exists obs_feature_mat lane_feature_mat,
                 VectorToMatrixXf_row fv 0 O_SIZE = Some obs_feature_mat
                 /\ VectorToMatrixXf fv (O_SIZE + INTERACTION_FEATURE_SIZE)
                      (length fv) SINGLE_LANE_FEATURE_SIZE
                      (LANE_POINTS_SIZE cfg) = Some lane_feature_mat
                 /\ let k := if vehicle_on_lane s
                             then GoModel else CutinModel in
                    let model_output :=
                      run_model go_model_Run cutin_model_Run k
                                lane_feature_mat obs_feature_mat in
                    lane_sequences o' !! i
                    = Some (set_time_to_lane_center
                              (set_probability s (fst model_output))
                              (snd model_output))
                    /\ filter (fun c => call_sequence c = i) calls
                       = [mkModelCall k i lane_feature_mat obs_feature_mat]).
Proof.
  intros Hon HO HL Hr Hres.
  pose proof (reaches_loop_has_graph Hr) as Hg.
  rewrite Evaluate_all, Hr, Hon. cbn [negb].
  destruct (eval_all_some (o := o)) as [[ss' calls] Hall]; [done|done|].
  rewrite Hall. exists (relane o ss'), calls. split; [done|].
  rewrite lane_sequences_relane by done.
  destruct (evaluate_all_lookup Hall) as [Hlen Hlook].
  split; [done|]. intros i s Hi.
  destruct (Hlook i s Hi) as (s' & c & Hs & Hi' & Hc). cbn [Nat.add] in Hs, Hc.
  destruct (ExtractFeatureValues_total cfg o
              (Hres s (list_elem_of_lookup_2 _ _ _ Hi))) as [[s1 fv] He].
  assert (s1 = s) as ->.
  { destruct (ExtractFeatureValues_inv He) as [[_ ->]|[_ ->]]; [done|].
    by rewrite Hon. }
  exists fv. split; [done|]. split.
  - intros Hwrong.
    rewrite (eval_seq_wrong_length go_model_Run cutin_model_Run i He Hwrong)
      in Hs.
    by simplify_eq.
  - intros Hfull.
    destruct (eval_seq_online go_model_Run cutin_model_Run i Hon HO HL He Hfull)
      as (obs_mat & lane_mat & Hobs & Hlane & Hrun).
    exists obs_mat, lane_mat. split; [done|]. split; [done|].
    cbn zeta in Hrun |- *. rewrite Hrun in Hs. by simplify_eq.
Qed.

Lemma eval_seq_offline_calls (o : Obstacle D) i s s' c :
  offline = true -> eval_seq o i s = Some (s', c) -> c = [].
Proof.
  intros Hoff. unfold evaluate_sequence. rewrite Hoff.
  repeat case_match; intros; simplify_eq; done.
Qed.

Lemma evaluate_all_offline_calls (o : Obstacle D) ss :
  offline = true ->
  forall i ss' cs, eval_all o i ss = Some (ss', cs) -> cs = [].
Proof.
  intros Hoff. induction ss as [|s rest IH]; intros i ss' cs H; simpl in H.
  - by simplify_eq.
  - destruct (eval_seq o i s) as [[s' c]|] eqn:Hs; [|done].
    destruct (eval_all o (S i) rest) as [[rest' cs']|] eqn:Hr; [|done].
    simplify_eq. by rewrite (eval_seq_offline_calls Hoff Hs), (IH _ _ _ Hr).
Qed.

(** C8: in offline mode (with every scanned id known to the container and
    [Evaluate] past its early returns) no model is run; a candidate whose
    vector has the declared length keeps its probability and
    time-to-lane-center and has the whole vector appended to its stored
    features; and the obstacle's latest observation, as it is after the
    loop, is inserted into the feature output exactly once. *)
Theorem offline_capture (o : Obstacle D) sink :
  offline = true ->
  reaches_loop o = true ->
  (forall s, s ∈ lane_sequences o -> ids_resolve GetObstacle s) ->
  exists o',
    evaluate o sink = Some (o', [], sink ++ [latest_feature o'])
    /\ forall i s, lane_sequences o !! i = Some s ->
         exists s1 fv,
           extract_values o s [] = Some (s1, fv)
           /\ (length fv = feature_size cfg ->
               exists s', lane_sequences o' !! i = Some s'
                          /\ probability s' = probability s
                          /\ time_to_lane_center s' = time_to_lane_center s
                          /\ mlp_features s' = mlp_features s ++ fv).
Proof.
  intros Hoff Hr Hres.
  pose proof (reaches_loop_has_graph Hr) as Hg.
  rewrite Evaluate_all, Hr, Hoff. cbn [negb].
  destruct (eval_all_some (o := o)) as [[ss' calls] Hall];
    [by rewrite Hoff|done|].
  rewrite Hall.
  destruct (evaluate_all_lookup Hall) as [Hlen Hlook].
  rewrite (evaluate_all_offline_calls Hoff Hall) in *.
  exists (relane o ss'). split; [done|].
  rewrite lane_sequences_relane by done.
  intros i s Hi.
  destruct (Hlook i s Hi) as (s' & c & Hs & Hi' & Hc). cbn [Nat.add] in Hs, Hc.
  destruct (ExtractFeatureValues_total cfg o
              (Hres s (list_elem_of_lookup_2 _ _ _ Hi))) as [[s1 fv] He].
  exists s1, fv. split; [done|]. intros Hfull.
  rewrite (eval_seq_offline go_model_Run cutin_model_Run i Hoff He Hfull) in Hs.
  simplify_eq. exists (SaveOfflineFeatures s fv). split; [done|].
  destruct (SaveOfflineFeatures_fields s fv) as (_ & _ & _ & ? & ? & ?).
  done.
Qed.
End EvaluateTheorems.

(** ** The lane block *)

Section LaneBlock.
Context {D : Type} {ops : DoubleOps D}.
Variable cfg : Config D.
Local Open Scope double_scope.

Local Abbreviation L := (LANE_POINTS_SIZE cfg).
Local Abbreviation positioned :=
  (filter (fun p : LanePoint D => is_Some (lp_position p))).

Lemma lane_target_eq : lane_target cfg = (4 * L)%nat.
Proof. reflexivity. Qed.

Lemma length_lane_values (f : Feature D) heading (pts : list (LanePoint D)) :
  length (flat_map (lane_point_values f heading) pts) = (4 * length pts)%nat.
Proof.
  induction pts as [|p ps IH]; [done|].
  cbn [flat_map]. rewrite length_app, IH. cbn [length lane_point_values]. lia.
Qed.

Lemma lane_point_loop_spec (f : Feature D) heading pts :
  forall acc k, length acc = (4 * k)%nat ->
    lane_point_loop cfg f heading pts acc
    = acc ++ flat_map (lane_point_values f heading)
                      (take (L - k) (positioned pts)).
Proof.
  induction pts as [|p ps IH]; intros acc k Hk; cbn [lane_point_loop].
  - rewrite filter_nil, take_nil. cbn [flat_map]. by rewrite app_nil_r.
  - rewrite lane_target_eq.
    destruct (Nat.leb_spec (4 * L) (length acc)) as [Hfull|Hroom].
    + replace (L - k)%nat with 0%nat by lia. rewrite take_0.
      cbn [flat_map]. by rewrite app_nil_r.
    + case_bool_decide as Hpos; cbn [negb].
      * rewrite filter_cons_True by done.
        replace (L - k)%nat with (S (L - S k)) by lia.
        cbn [take flat_map].
        rewrite (IH _ (S k)), <- app_assoc; [done|].
        rewrite length_app, Hk. cbn [length lane_point_values]. lia.
      * rewrite filter_cons_False by done. by apply IH.
Qed.

Lemma lane_segment_loop_spec (f : Feature D) heading segs :
  forall acc k, length acc = (4 * k)%nat ->
    lane_segment_loop cfg f heading segs acc
    = acc ++ flat_map (lane_point_values f heading)
                      (take (L - k)
                            (positioned (flat_map (@lane_point D) segs))).
Proof.
  induction segs as [|g gs IH]; intros acc k Hk; cbn [lane_segment_loop].
  - cbn [flat_map]. rewrite filter_nil, take_nil. cbn [flat_map].
    by rewrite app_nil_r.
  - rewrite lane_target_eq.
    destruct (Nat.leb_spec (4 * L) (length acc)) as [Hfull|Hroom].
    + replace (L - k)%nat with 0%nat by lia. rewrite take_0.
      cbn [flat_map]. by rewrite app_nil_r.
    + rewrite (lane_point_loop_spec _ _ _ Hk).
      set (A := positioned (lane_point g)).
      rewrite (IH _ (k + length (take (L - k) A))%nat).
      2:{ rewrite length_app, length_lane_values, Hk. lia. }
      cbn [flat_map]. rewrite filter_app. fold A.
      rewrite take_app, flat_map_app, <- app_assoc. do 2 f_equal.
      rewrite length_take. f_equal. f_equal. lia.
Qed.

Lemma extrapolate_loop_short fuel (fv : list D) :
  (length fv < 10)%nat -> extrapolate_loop cfg fuel fv = fv.
Proof.
  intros H. destruct fuel; [done|]. cbn [extrapolate_loop].
  by destruct (Nat.leb_spec 10 (length fv)); [lia|].
Qed.

Lemma extrapolate_loop_spec fuel :
  forall (fv : list D) m,
    length fv = (4 * m)%nat -> (3 <= m <= L)%nat -> (L - m <= fuel)%nat ->
    let r := extrapolate_loop cfg fuel fv in
    length r = (4 * L)%nat
    /\ take (4 * m) r = fv
    /\ forall k, (m <= k < L)%nat -> r !! (4 * k + 3)%nat = Some d0.
Proof.
  induction fuel as [|fuel IH]; intros fv m Hlen Hm Hfuel r; subst r.
  - assert (m = L) by lia. subst m. cbn [extrapolate_loop].
    split; [done|]. split; [by rewrite take_ge by lia|]. intros; lia.
  - cbn [extrapolate_loop]. rewrite lane_target_eq.
    destruct (Nat.leb_spec 10 (length fv)) as [_|?]; [|lia].
    destruct (Nat.ltb_spec (length fv) (4 * L)) as [Hlt|Hge]; cbn [andb].
    + destruct (IH (extrapolate_once fv) (S m)) as (H1 & H2 & H3).
      * unfold extrapolate_once. rewrite length_app, Hlen. cbn [length]. lia.
      * lia.
      * lia.
      * split; [done|]. split.
        -- replace (take (4 * m) (extrapolate_loop cfg fuel (extrapolate_once fv)))
             with (take (4 * m)
                     (take (4 * S m)
                        (extrapolate_loop cfg fuel (extrapolate_once fv))))
             by (rewrite take_take; f_equal; lia).
           rewrite H2. unfold extrapolate_once.
           by rewrite take_app_length' by done.
        -- intros k Hk. destruct (decide (k = m)) as [->|Hne].
           ++ rewrite <- (lookup_take_lt _ (4 * S m)) by lia.
              rewrite H2. unfold extrapolate_once.
              rewrite lookup_app_r by lia.
              by replace (4 * m + 3 - length fv)%nat with 3%nat by lia.
           ++ apply H3. lia.
    + assert (m = L) by lia. subst m.
      split; [done|]. split; [by rewrite take_ge by lia|]. intros; lia.
Qed.

Lemma SetLaneFeatureValues_raw (o : Obstacle D) (s : LaneSequence D) :
  IsInitialized (latest_feature o) = true ->
  is_Some (position (latest_feature o)) ->
  SetLaneFeatureValues cfg o s
  = extrapolate_loop cfg L
      (flat_map (lane_point_values (latest_feature o)
                   (velocity_heading_value (latest_feature o)))
                (take L (positioned_points s))).
Proof.
  intros Hinit Hpos. unfold SetLaneFeatureValues. rewrite Hinit.
  rewrite bool_decide_eq_true_2 by done. cbn [negb].
  rewrite (lane_segment_loop_spec _ _ _ (acc := []) (k := 0) eq_refl).
  by rewrite Nat.sub_0_r.
Qed.

(** C2, as the code has it: with an initialized, positioned latest
    observation, the block starts with the four values of each positioned
    lane point (at most [LANE_POINTS_SIZE] of them); it has exactly
    [4 * LANE_POINTS_SIZE] values if and only if the sequence supplies at
    least three positioned points or at least [LANE_POINTS_SIZE], and
    otherwise only the raw values; and when padding happens, every padded
    point has curvature 0. *)
Theorem lane_block_layout (o : Obstacle D) (s : LaneSequence D) :
  IsInitialized (latest_feature o) = true ->
  is_Some (position (latest_feature o)) ->
  let pts := positioned_points s in
  let raw := flat_map (lane_point_values (latest_feature o)
                         (velocity_heading_value (latest_feature o)))
                      (take L pts) in
  let out := SetLaneFeatureValues cfg o s in
  take (length raw) out = raw
  /\ length raw = (4 * Nat.min L (length pts))%nat
  /\ (length out = (4 * L)%nat <-> (3 <= length pts \/ L <= length pts)%nat)
  /\ ((length pts < 3)%nat -> (length pts < L)%nat -> out = raw)
  /\ ((3 <= length pts)%nat ->
      forall k, (length pts <= k < L)%nat -> out !! (4 * k + 3)%nat = Some d0).
Proof.
  intros Hinit Hpos pts raw out.
  assert (Hraw : length raw = (4 * Nat.min L (length pts))%nat).
  { subst raw. by rewrite length_lane_values, length_take. }
  assert (Hout : out = extrapolate_loop cfg L raw)
    by (by apply SetLaneFeatureValues_raw).
  destruct (decide (3 <= Nat.min L (length pts))%nat) as [Hthree|Hfew].
  - destruct (extrapolate_loop_spec (fuel := L) Hraw) as (H1 & H2 & H3);
      [lia|lia|].
    rewrite <- Hout in H1, H2, H3.
    split; [by rewrite Hraw|]. split; [done|]. split; [split; [lia|done]|].
    split; [lia|]. intros _ k Hk. apply H3. lia.
  - assert (Hshort : (length raw < 10)%nat \/ length pts = L \/ (L <= length pts)%nat)
      by lia.
    assert (Hsame : out = raw).
    { rewrite Hout. destruct Hshort as [?|Hfull].
      - by apply extrapolate_loop_short.
      - apply extrapolate_loop_full. rewrite lane_target_eq. lia. }
    rewrite Hsame. split; [by apply take_ge|]. split; [done|].
    split; [rewrite Hraw; lia|]. split; [done|]. intros ? k Hk. lia.
Qed.
End LaneBlock.

(** ** The frame change on the reals *)

Module RealFrame.
Import RealDouble.
Local Open Scope R_scope.

Lemma hypot_pos (x y : R) : 0 < x -> sqrt (x * x + y * y) = x * sqrt (1 + (y / x)²).
Proof.
  intros Hx.
  transitivity (sqrt (x²) * sqrt (1 + (y / x)²)).
  - rewrite <- sqrt_mult_alt by apply Rle_0_sqr.
    f_equal. unfold Rsqr. field. lra.
  - rewrite sqrt_Rsqr by lra. reflexivity.
Qed.

Lemma hypot_neg (x y : R) : x < 0 -> sqrt (x * x + y * y) = - x * sqrt (1 + (y / x)²).
Proof.
  intros Hx.
  transitivity (sqrt ((- x)²) * sqrt (1 + (y / x)²)).
  - rewrite <- sqrt_mult_alt by apply Rle_0_sqr.
    f_equal. unfold Rsqr. field. lra.
  - rewrite sqrt_Rsqr by lra. reflexivity.
Qed.

Lemma sqrt_1_sqr_pos (z : R) : 0 < sqrt (1 + z²).
Proof. apply sqrt_lt_R0. pose proof (Rle_0_sqr z). lra. Qed.

(** Polar form: radius times cosine (sine) of [atan2 y x] is [x] ([y]). *)
Lemma polar_cos (x y : R) : cos (Ratan2 y x) * sqrt (x * x + y * y) = x.
Proof.
  unfold Ratan2.
  destruct (Rlt_dec 0 x) as [Hx | Hx].
  - rewrite cos_atan, hypot_pos by assumption.
    pose proof (sqrt_1_sqr_pos (y / x)). field. lra.
  - destruct (Rlt_dec x 0) as [Hx' | Hx'].
    + pose proof (sqrt_1_sqr_pos (y / x)).
      destruct (Rle_dec 0 y).
      * rewrite neg_cos, cos_atan, hypot_neg by assumption. field. lra.
      * unfold Rminus. rewrite <- (cos_neg (atan (y / x) + - PI)).
        replace (- (atan (y / x) + - PI)) with (- atan (y / x) + PI) by ring.
        rewrite neg_cos, cos_neg, cos_atan, hypot_neg by assumption. field. lra.
    + assert (x = 0) by lra. subst x.
      destruct (Rlt_dec 0 y).
      * rewrite cos_PI2. ring.
      * destruct (Rlt_dec y 0).
        -- rewrite cos_neg, cos_PI2. ring.
        -- assert (y = 0) by lra. subst y.
           rewrite Rmult_0_l, Rplus_0_l, sqrt_0. ring.
Qed.

Lemma polar_sin (x y : R) : sin (Ratan2 y x) * sqrt (x * x + y * y) = y.
Proof.
  unfold Ratan2.
  destruct (Rlt_dec 0 x) as [Hx | Hx].
  - rewrite sin_atan, hypot_pos by assumption.
    pose proof (sqrt_1_sqr_pos (y / x)). field. lra.
  - destruct (Rlt_dec x 0) as [Hx' | Hx'].
    + pose proof (sqrt_1_sqr_pos (y / x)).
      destruct (Rle_dec 0 y).
      * rewrite neg_sin, sin_atan, hypot_neg by assumption. field. lra.
      * unfold Rminus. rewrite <- (Ropp_involutive (sin _)), <- sin_neg.
        replace (- (atan (y / x) + - PI)) with (- atan (y / x) + PI) by ring.
        rewrite neg_sin, sin_neg, sin_atan, hypot_neg by assumption. field. lra.
    + assert (x = 0) by lra. subst x.
      destruct (Rlt_dec 0 y).
      * rewrite sin_PI2, Rmult_0_l, Rplus_0_l, Rmult_1_l.
        replace (y * y) with (y²) by reflexivity. apply sqrt_Rsqr. lra.
      * destruct (Rlt_dec y 0).
        -- rewrite sin_neg, sin_PI2, Rmult_0_l, Rplus_0_l.
           replace (y * y) with ((- y)²) by (unfold Rsqr; ring).
           rewrite sqrt_Rsqr by lra. ring.
        -- assert (y = 0) by lra. subst y.
           rewrite Rmult_0_l, Rplus_0_l, sqrt_0. ring.
Qed.
(** C9: over the reals, rotating the result of [WorldCoordToObjCoord] by
    [+ angle] and translating it by [+ origin] gives back the point. *)
Theorem world_obj_round_trip (p o : R * R) (a : R) :
  ObjCoordToWorldCoord (WorldCoordToObjCoord p o a) o a = p.
Proof.
  destruct p as [px py], o as [ox oy].
  unfold ObjCoordToWorldCoord, WorldCoordToObjCoord. cbn.
  set (dx := px - ox). set (dy := py - oy).
  pose proof (polar_cos dx dy) as Hc. pose proof (polar_sin dx dy) as Hs.
  set (rho := sqrt (dx * dx + dy * dy)) in *.
  set (theta := Ratan2 dy dx) in *.
  pose proof (sin2_cos2 a) as Hone. unfold Rsqr in Hone.
  rewrite cos_minus, sin_minus. f_equal.
  - transitivity (cos theta * rho * (sin a * sin a + cos a * cos a) + ox);
      [ring|]. rewrite Hone, Hc. unfold dx. ring.
  - transitivity (sin theta * rho * (sin a * sin a + cos a * cos a) + oy);
      [ring|]. rewrite Hone, Hs. unfold dy. ring.
Qed.
End RealFrame.

(** ** The scenarios, run *)

Module ScenarioFacts.
Import RationalDouble Scenario.
Local Open Scope Q_scope.

Lemma Qltb_irrefl (x : Q) : Qltb x x = false.
Proof.
  unfold Qltb. assert (H : (x ?= x) = Eq) by (apply Qeq_alt; reflexivity).
  by rewrite H.
Qed.

Lemma Qltb_lt (x y : Q) : Qltb x y = true <-> x < y.
Proof.
  unfold Qltb. rewrite Qlt_alt. destruct (x ?= y); split; congruence.
Qed.

Lemma Qltb_trans (x y z : Q) :
  Qltb x y = true -> Qltb y z = true -> Qltb x z = true.
Proof. rewrite !Qltb_lt. apply Qlt_trans. Qed.

Lemma container_resolves (s : LaneSequence Q) :
  s ∈ three_candidates -> ids_resolve container s.
Proof.
  intros Hs n Hn. unfold three_candidates in Hs.
  repeat (apply elem_of_cons in Hs as [->|Hs]);
    [| |
     |by apply elem_of_nil in Hs].
  - by apply elem_of_nil in Hn.
  - by apply elem_of_nil in Hn.
  - cbn [nearby_obstacle seq_neighbours] in Hn.
    repeat (apply elem_of_cons in Hn as [->|Hn]);
      [by eexists|by eexists|by apply elem_of_nil in Hn].
Qed.
End ScenarioFacts.

(** ** The theorems at the scenarios, and where the stated claims fail *)

Module ScenarioChecks.
Import RationalDouble Scenario ScenarioFacts.
Local Open Scope Q_scope.

(** C7 at one observation with lane attributes: 68 values. *)
Lemma obstacle_block_layout_witness :
  length (SetObstacleFeatureValues cfg_online obstacle_with_candidates) = 68%nat.
Proof.
  apply (@obstacle_block_layout Q Q_ops cfg_online obstacle_with_candidates).
  exists (latest_feature obstacle_with_candidates).
  split; [vm_compute; left|by eexists].
Defined.

(** C1 at an observation with a lane graph and no lane feature: empty
    block, no model run, the one candidate set to probability 0. *)
Lemma no_lane_attributes_witness :
  SetObstacleFeatureValues cfg_online obstacle_without_lane_feature = []
  /\ exists o',
       Evaluate cfg_online container go_model cutin_model
                obstacle_without_lane_feature [] = Some (o', [], [])
       /\ lane_sequences o' = [set_probability seq_three_points d0].
Proof.
  destruct (@no_lane_attributes_zeroes_candidates Q Q_ops cfg_online container
              go_model cutin_model obstacle_without_lane_feature [])
    as (Hempty & o' & out & He & _ & Hloop).
  - discriminate.
  - intros f Hf. vm_compute in Hf.
    apply list_elem_of_singleton in Hf. by subst f.
  - destruct (Hloop eq_refl) as [Hseqs ->].
    split; [exact Hempty|]. exists o'. split; [exact He|exact Hseqs].
Defined.

(** C1 as stated fails: the candidate's probability was 1/2 and is 0
    after [Evaluate]. *)
Lemma probability_overwritten_counterexample :
  (forall f, f ∈ visited cfg_online obstacle_without_lane_feature ->
             lane_feature_of f = None)
  /\ map (@probability Q) (lane_sequences obstacle_without_lane_feature)
     = [Some (1 # 2)]
  /\ exists o',
       Evaluate cfg_online container go_model cutin_model
                obstacle_without_lane_feature []
       = Some (o', [], [])
       /\ map (@probability Q) (lane_sequences o') = [Some 0]
       /\ map (@probability Q) (lane_sequences o')
          <> map (@probability Q) (lane_sequences obstacle_without_lane_feature).
Proof.
  split; [|split; [reflexivity|]].
  - intros f Hf. vm_compute in Hf.
    apply list_elem_of_singleton in Hf. by subst f.
  - eexists. split; [vm_compute; reflexivity|]. split; [reflexivity|].
    vm_compute. discriminate.
Qed.

(** C2 at three lane points: 80 values. *)
Lemma lane_block_layout_witness :
  length (SetLaneFeatureValues cfg_online obstacle_with_candidates
                               seq_three_points) = 80%nat.
Proof.
  apply (@lane_block_layout Q Q_ops cfg_online obstacle_with_candidates
           seq_three_points eq_refl (ex_intro _ _ eq_refl)).
  left. vm_compute. lia.
Defined.

(** C2 as stated fails: a sequence without lane points gives an empty
    block, not 80 values. *)
Lemma lane_block_short_counterexample :
  IsInitialized (latest_feature obstacle_with_candidates) = true
  /\ is_Some (position (latest_feature obstacle_with_candidates))
  /\ SetLaneFeatureValues cfg_online obstacle_with_candidates seq_no_points = []
  /\ length (SetLaneFeatureValues cfg_online obstacle_with_candidates
                                  seq_no_points)
     <> (4 * LANE_POINTS_SIZE cfg_online)%nat.
Proof. split; [done|]. split; [by eexists|]. split; [done|]. vm_compute. lia. Qed.

(** The padding of the lane block: with raw points (lateral 0,
    longitudinal 1, 2, 3, heading 0, curvatures 7, 8, 9) the first padded
    point is (16, -7, 3, 0), where twice the previous minus the one before
    would give lateral 0, longitudinal 4 and heading 0. *)
Example padding_reads_shifted_slots :
  take 16 (SetLaneFeatureValues cfg_online obstacle_with_candidates
                                seq_three_points)
  = [0; 1; 0; 7;  0; 2; 0; 8;  0; 3; 0; 9;  16; -7; 3; 0].
Proof. vm_compute. reflexivity. Qed.

(** C3 at two usable observations, frame 1. *)
Lemma window_flags_witness :
  has_history (snd (scan_history cfg_online obstacle_two_frames)) !! 1%nat
  = Some 1%Z.
Proof.
  apply (@window_flags_visited_prefix Q Q_ops cfg_online obstacle_two_frames 1).
  - vm_compute. lia.
  - intros j Hj.
    assert (Hcase : j = 0%nat \/ j = 1%nat) by lia.
    destruct Hcase as [->| ->]; vm_compute; reflexivity.
  - intros j f Hj Hf.
    assert (Hcase : j = 0%nat \/ j = 1%nat) by lia.
    destruct Hcase as [->| ->]; vm_compute in Hf; simplify_eq; reflexivity.
Defined.

(** C3 as stated fails: with a latest observation without position and a
    usable one before it, the flags are 0, 0, 1, 1, 1.  Frame 1 was visited
    and usable and has flag 0; frame 2 was never visited and has flag 1,
    so a 0 is followed by a 1. *)
Lemma window_flags_counterexample :
  let o := obstacle_unusable_then_usable in
  let has := has_history (snd (scan_history cfg_online o)) in
  has = [0; 0; 1; 1; 1]%Z
  /\ frame_visited (history_start_time cfg_online o) (feature_history o) 1
     = true
  /\ (feature_history o !! 1%nat) ≫= (fun f => Some (usable f)) = Some true
  /\ frame_visited (history_start_time cfg_online o) (feature_history o) 2
     = false
  /\ ~ gap_free has.
Proof.
  split; [vm_compute; reflexivity|]. split; [vm_compute; reflexivity|].
  split; [vm_compute; reflexivity|]. split; [vm_compute; reflexivity|].
  intros Hgap. specialize (Hgap 1%nat 2%nat).
  vm_compute in Hgap. discriminate Hgap; [lia|reflexivity].
Qed.

(** C4 at a sequence with one neighbour ahead and one behind. *)
Lemma interaction_block_layout_witness :
  exists flen fspeed blen bspeed,
    SetInteractionFeatureValues cfg_online container seq_neighbours
    = Some [30; 0; flen; fspeed; -12; 1; blen; bspeed].
Proof.
  destruct (@interaction_block_layout Q Q_ops cfg_online container
              Qltb_irrefl Qltb_trans seq_neighbours)
    as (flen & fspeed & blen & bspeed & Hv & _).
  - apply container_resolves. vm_compute. do 2 right. left.
  - exists flen, fspeed, blen, bspeed. exact Hv.
Defined.

(** C4 as stated fails: the only entry has a non-negative s (2000, beyond
    the default 1000), and the forward default pair is emitted. *)
Lemma forward_default_counterexample :
  SetInteractionFeatureValues cfg_online container seq_far_ahead
  = Some [1000; 10000; 0; 0; -1000; 10000; 0; 0]
  /\ exists n, n ∈ nearby_obstacle seq_far_ahead /\ dlt (no_s n) d0 = false.
Proof.
  split; [vm_compute; reflexivity|].
  eexists. split; [left|]. vm_compute. reflexivity.
Qed.

(** C5 at ten lane-attributed samples with angle differences 0..9 and
    0.1 s spacing: delta [2 - 7], rate [-5 / (0.1 * 5)]. *)
Lemma recent_deltas_witness :
  SetObstacleFeatureValues cfg_online obstacle_dense_lane !! 3%nat = Some (-5)
  /\ SetObstacleFeatureValues cfg_online obstacle_dense_lane !! 4%nat
     = Some (-10).
Proof.
  destruct (@recent_deltas_and_rates Q Q_ops cfg_online obstacle_dense_lane)
    as (angle_delta & angle_rate & offset_delta & offset_rate
        & H3 & H4 & _ & _ & Hten & _ & _ & Hrate & _).
  - vm_compute. discriminate.
  - destruct Hten as [Hdelta _]; [vm_compute; lia|].
    rewrite H3, H4, Hrate, Hdelta. split; vm_compute; reflexivity.
Defined.

(** C5 as stated fails: ten observations of which one carries lane
    attributes; the deltas are 1 and 2, not 0. *)
Lemma sparse_samples_counterexample :
  length (lane_samples cfg_online obstacle_sparse_lane) = 1%nat
  /\ history_size obstacle_sparse_lane = 10%nat
  /\ SetObstacleFeatureValues cfg_online obstacle_sparse_lane !! 3%nat = Some 1
  /\ SetObstacleFeatureValues cfg_online obstacle_sparse_lane !! 8%nat = Some 2
  /\ Some 1 <> Some (d0 : Q) /\ Some 2 <> Some (d0 : Q).
Proof. repeat split; try (vm_compute; reflexivity); discriminate. Qed.

(** C6 at three candidates, online: the second one has no lane points,
    so its vector is short; it gets probability 0 and no model run. *)
Lemma online_dispatch_witness :
  exists o' calls,
    Evaluate cfg_online container go_model cutin_model
             obstacle_with_candidates []
    = Some (o', calls, [])
    /\ lane_sequences o' !! 1%nat = Some (set_probability seq_no_points d0)
    /\ filter (fun c => call_sequence c = 1%nat) calls = [].
Proof.
  destruct (@online_wrong_length_zeroed_others_dispatched
              Q Q_ops cfg_online container go_model cutin_model
              obstacle_with_candidates [])
    as (o' & calls & He & _ & Hseq).
  - reflexivity.
  - vm_compute. lia.
  - vm_compute. lia.
  - reflexivity.
  - apply container_resolves.
  - destruct (Hseq 1%nat seq_no_points eq_refl) as (fv & Hx & Hwrong & _).
    exists o', calls. split; [exact He|]. apply Hwrong.
    vm_compute in Hx. injection Hx as <-. vm_compute. lia.
Defined.

(** C6 as stated fails: in offline mode the first candidate's vector has
    the declared length, yet no model is run and its probability stays
    1/2. *)
Lemma offline_not_dispatched_counterexample :
  exists s1 fv o' out,
    ExtractFeatureValues cfg_offline container obstacle_with_candidates
                         seq_three_points [] = Some (s1, fv)
    /\ length fv = feature_size cfg_offline
    /\ Evaluate cfg_offline container go_model cutin_model
                obstacle_with_candidates [] = Some (o', [], out)
    /\ (lane_sequences o' !! 0%nat) ≫= @probability Q = Some (1 # 2)
    /\ (lane_sequences o' !! 0%nat) ≫= @time_to_lane_center Q = None.
Proof.
  eexists _, _, _, _. split; [vm_compute; reflexivity|].
  split; [vm_compute; reflexivity|]. split; [vm_compute; reflexivity|].
  split; vm_compute; reflexivity.
Qed.

(** C8 at three candidates, offline: the first one keeps probability
    1/2 and stores its 156 values. *)
Lemma offline_capture_witness :
  exists o' s',
    Evaluate cfg_offline container go_model cutin_model
             obstacle_with_candidates []
    = Some (o', [], [latest_feature o'])
    /\ lane_sequences o' !! 0%nat = Some s'
    /\ probability s' = Some (1 # 2)
    /\ length (mlp_features s') = 156%nat.
Proof.
  destruct (@offline_capture Q Q_ops cfg_offline container go_model cutin_model
              obstacle_with_candidates [])
    as (o' & He & Hseq).
  - reflexivity.
  - reflexivity.
  - apply container_resolves.
  - destruct (Hseq 0%nat seq_three_points eq_refl) as (s1 & fv & Hx & Hfull).
    vm_compute in Hx. injection Hx as _ <-.
    destruct Hfull as (s' & Hs' & Hp & _ & Hm); [vm_compute; reflexivity|].
    exists o', s'. split; [exact He|]. split; [exact Hs'|].
    split; [exact Hp|]. rewrite Hm. reflexivity.
Defined.

(** C10 at the candidate with two neighbours: all three blocks pass. *)
Lemma extract_length_cases_witness :
  exists s' fv,
    ExtractFeatureValues cfg_online container obstacle_with_candidates
                         seq_neighbours [] = Some (s', fv)
    /\ length fv = feature_size cfg_online.
Proof.
  destruct (@extract_length_cases Q Q_ops cfg_online container
              obstacle_with_candidates seq_neighbours)
    as (s' & fv & inter & He & Hi & _ & _ & Hiff).
  - apply container_resolves. vm_compute. do 2 right. left.
  - exists s', fv. split; [exact He|]. apply Hiff.
    vm_compute in Hi. injection Hi as <-.
    repeat split; vm_compute; reflexivity.
Defined.
End ScenarioChecks.

(** * Further properties of the evaluator's functions *)

(** ** [ComputeMean] and [VectorToMatrixXf] *)

Section NumericHelpers.
Context {D : Type} {ops : DoubleOps D}.
Local Open Scope double_scope.

(** X1: [ComputeMean] over an empty index range, that is a start index at
    or beyond the end of the vector or beyond the end index, is 0 and
    divides nothing. *)
Theorem ComputeMean_empty_range (nums : list D) (start end_ : nat) :
  (length nums <= start \/ end_ < start)%nat ->
  ComputeMean nums start end_ = d0.
Proof.
  intros H. unfold ComputeMean, mean_range.
  assert (Hnil : take (S end_ - start) (drop start nums) = []).
  { destruct H as [H|H].
    - rewrite drop_ge by done. apply take_nil.
    - replace (S end_ - start)%nat with 0%nat by lia. apply take_0. }
  by rewrite Hnil.
Qed.

(** X2: an end index at or beyond the last element is clipped to the
    vector: every such end index gives the same mean. *)
Theorem ComputeMean_end_clipped (nums : list D) (start e1 e2 : nat) :
  (length nums <= S e1)%nat -> (length nums <= S e2)%nat ->
  ComputeMean nums start e1 = ComputeMean nums start e2.
Proof.
  intros H1 H2. unfold ComputeMean, mean_range.
  rewrite !take_ge by (rewrite length_drop; lia). reflexivity.
Qed.

Lemma rows_of_length (cells : list D) r c : length (rows_of cells r c) = r.
Proof. revert cells. induction r as [|r IH]; intros cells; simpl; auto. Qed.

Lemma rows_of_lookup (cells : list D) r c i :
  (i < r)%nat -> rows_of cells r c !! i = Some (take c (drop (i * c) cells)).
Proof.
  revert cells i. induction r as [|r IH]; intros cells i Hi; [lia|].
  destruct i as [|i]; simpl.
  - by rewrite drop_0.
  - rewrite IH by lia. by rewrite drop_drop.
Qed.

(** X3: the one-row conversion aborts exactly when
    [start < end <= size] fails; otherwise it returns a single row of
    [end - start] cells, cell [j] being the [float] cast of
    [nums[start + j]]. *)
Theorem VectorToMatrixXf_row_spec (nums : list D) (start_index end_index : nat) :
  match VectorToMatrixXf_row nums start_index end_index with
  | None => ~ (start_index < end_index <= length nums)%nat
  | Some m =>
      (start_index < end_index <= length nums)%nat
      /\ exists row,
           m = [row]
           /\ length row = (end_index - start_index)%nat
           /\ forall j, (j < end_index - start_index)%nat ->
                is_Some (nums !! (start_index + j)%nat)
                /\ row !! j = dfloat <$> nums !! (start_index + j)%nat
  end.
Proof.
  unfold VectorToMatrixXf_row.
  destruct (Nat.ltb_spec start_index end_index) as [Hlt|Hge]; cbn [negb];
    [|lia].
  destruct (Nat.leb_spec end_index (length nums)) as [Hle|Hgt]; cbn [negb];
    [|lia].
  split; [lia|]. eexists. split; [done|]. split.
  - rewrite length_map, length_take, length_drop. lia.
  - intros j Hj. split; [apply lookup_lt_is_Some_2; lia|].
    rewrite list_lookup_fmap, lookup_take_lt, lookup_drop by lia. done.
Qed.

(** X4: the reshaping conversion aborts exactly when
    [start < end <= size] or [end - start = rows * cols] fails; otherwise
    it returns [rows] rows of [cols] cells filled row by row: cell
    [(i, j)] is the [float] cast of [nums[start + i * cols + j]]. *)
Theorem VectorToMatrixXf_spec (nums : list D) (start_index end_index : nat)
    (output_num_row output_num_col : nat) :
  match VectorToMatrixXf nums start_index end_index
                         output_num_row output_num_col with
  | None =>
      ~ ((start_index < end_index <= length nums)%nat
         /\ (end_index - start_index = output_num_row * output_num_col)%nat)
  | Some m =>
      (start_index < end_index <= length nums)%nat
      /\ (end_index - start_index = output_num_row * output_num_col)%nat
      /\ length m = output_num_row
      /\ forall i, (i < output_num_row)%nat ->
           exists row,
             m !! i = Some row
             /\ length row = output_num_col
             /\ forall j, (j < output_num_col)%nat ->
                  is_Some (nums !! (start_index + i * output_num_col + j)%nat)
                  /\ row !! j
                     = dfloat <$> nums !! (start_index + i * output_num_col
                                           + j)%nat
  end.
Proof.
  unfold VectorToMatrixXf.
  destruct (Nat.ltb_spec start_index end_index) as [Hlt|Hge]; cbn [negb];
    [|lia].
  destruct (Nat.leb_spec end_index (length nums)) as [Hle|Hgt]; cbn [negb];
    [|lia].
  destruct (Nat.eqb_spec (end_index - start_index)
              (output_num_row * output_num_col)) as [Heq|Hne]; cbn [negb];
    [|lia].
  split; [lia|]. split; [done|]. split; [apply rows_of_length|].
  intros i Hi. eexists. split; [by apply rows_of_lookup|].
  assert (Hcell : (i * output_num_col + output_num_col
                   <= output_num_row * output_num_col)%nat) by nia.
  split.
  - rewrite length_take, length_drop, length_map, length_take, length_drop.
    lia.
  - intros j Hj. split.
    + apply lookup_lt_is_Some_2. lia.
    + rewrite lookup_take_lt, lookup_drop, list_lookup_fmap by lia.
      rewrite lookup_take_lt, lookup_drop by lia.
      f_equal. f_equal. lia.
Qed.
End NumericHelpers.

(** ** The history walk: samples and window content *)

Section WalkExtras.
Context {D : Type} {ops : DoubleOps D}.
Variable cfg : Config D.
Local Open Scope double_scope.

Local Abbreviation W := (FLAGS_cruise_historical_frame_length cfg).

Lemma visited_frames_recent start (fs : list (Feature D)) :
  Forall (fun f => IsInitialized f = true /\ (timestamp f <? start) = false)
         (visited_frames start fs).
Proof.
  induction fs as [|f rest IH]; simpl; [done|].
  destruct (IsInitialized f) eqn:Hi; simpl; [|done].
  destruct (timestamp f <? start) eqn:Ht; [done|]. by constructor.
Qed.

(** X5: every timestamp the walk samples is not older than the start time
    [timestamp() - FLAGS_prediction_trajectory_time_length]. *)
Theorem sampled_timestamps_within_horizon (o : Obstacle D) (t : D) :
  t ∈ timestamps (fst (scan_history cfg o)) ->
  (t <? obstacle_timestamp o - FLAGS_prediction_trajectory_time_length cfg)
  = false.
Proof.
  destruct (scan_samples cfg o) as (_ & _ & _ & _ & _ & _ & Hts & _).
  rewrite Hts. intros Hin. apply list_elem_of_fmap in Hin as ([f lf] & -> & Hin).
  unfold lane_samples in Hin. apply list_elem_of_omap in Hin as (g & Hg & Hs).
  unfold sample_of in Hs. destruct (lane_feature_of g); [|done]. simplify_eq.
  pose proof (visited_frames_recent (history_start_time cfg o)
                (feature_history o)) as Hall.
  rewrite Forall_forall in Hall. by destruct (Hall _ Hg).
Qed.

Lemma history_loop_cut start pos heading (l : list (Feature D)) f rest :
  IsInitialized f = true -> (timestamp f <? start) = true ->
  forall i st,
    history_loop cfg start pos heading (l ++ f :: rest) i st
    = history_loop cfg start pos heading l i st.
Proof.
  intros Hi Ht. induction l as [|g l IH]; intros i st; simpl.
  - by rewrite Hi, Ht.
  - by rewrite !IH.
Qed.

(** X6: the walk ends at the first initialized observation older than
    the start time: whatever lies behind it in the history, recent or not,
    changes neither the samples nor the window. *)
Theorem scan_ignores_frames_behind_old_one (o : Obstacle D) pre f rest :
  older_features o = pre ++ f :: rest ->
  IsInitialized f = true ->
  (timestamp f <? obstacle_timestamp o
                  - FLAGS_prediction_trajectory_time_length cfg) = true ->
  scan_history cfg o
  = scan_history cfg (mkObstacle (id o) (latest_feature o) pre).
Proof.
  intros Holder Hi Ht. unfold scan_history, feature_history, obstacle_timestamp.
  cbn [latest_feature older_features]. rewrite Holder.
  exact (history_loop_cut _ _ (latest_feature o :: pre) rest Hi Ht 0%nat _).
Qed.

(** X7: the seven sample vectors are filled in step: they all have as
    many elements as [count], at most one per observation of the
    history. *)
Theorem sample_vectors_in_step (o : Obstacle D) :
  let s := fst (scan_history cfg o) in
  let n := length (timestamps s) in
  length (thetas s) = n /\ length (lane_ls s) = n
  /\ length (dist_lbs s) = n /\ length (dist_rbs s) = n
  /\ length (lane_types s) = n /\ length (speeds s) = n
  /\ count s = Z.of_nat n /\ (n <= history_size o)%nat.
Proof.
  destruct (scan_samples cfg o) as (H1 & H2 & H3 & H4 & H5 & H6 & H7 & H8).
  cbn zeta. rewrite H1, H2, H3, H4, H5, H6, H7, H8, !length_map.
  repeat split; try done.
  etransitivity; [apply length_lane_samples|apply length_visited].
Qed.

Lemma fill_frame_other pos heading (f : Feature D) i w j :
  j <> i ->
  frame_at (fill_frame cfg pos heading f i w) j = frame_at w j.
Proof.
  intros Hne. unfold fill_frame, frame_at.
  repeat case_match; cbn; rewrite ?list_lookup_insert_ne by done; done.
Qed.

Lemma history_loop_frame_before start pos heading fs :
  forall i st j, (j < i)%nat ->
    frame_at (snd (history_loop cfg start pos heading fs i st)) j
    = frame_at (snd st) j.
Proof.
  induction fs as [|f rest IH]; intros i st j Hj; simpl; [done|].
  destruct (IsInitialized f); simpl; [|apply IH; lia].
  destruct (timestamp f <? start); [done|].
  rewrite IH by lia. cbn [snd]. apply fill_frame_other. lia.
Qed.

(** The loop body on a usable frame whose predecessor is flagged 1. *)
Lemma fill_frame_usable pos heading (f : Feature D) i (w : FrameWindow D) :
  (i < W)%nat -> window_sized cfg w ->
  (i = 0%nat \/ has_history w !! (i - 1)%nat = Some 1%Z) ->
  has_history w !! i = Some 1%Z ->
  usable f = true ->
  let w' := fill_frame cfg pos heading f i w in
  has_history w' !! i = Some 1%Z
  /\ pos_history w' !! i
     = Some (WorldCoordToObjCoord
               (point_x (position f), point_y (position f)) pos heading)
  /\ vel_history w' !! i = Some (free_vector_to_obj (velocity f) pos heading)
  /\ acc_history w' !! i
     = Some (free_vector_to_obj (acceleration f) pos heading)
  /\ vel_heading_history w' !! i = Some (local_heading heading f)
  /\ vel_heading_changing_rate_history w' !! i
     = (if (i =? 0)%nat then vel_heading_changing_rate_history w !! i
        else Some ((at_ d0 (vel_heading_history w) (i - 1)
                    - local_heading heading f)
                   / (FLAGS_double_precision cfg + timestamp f
                      - prev_timestamp w)))
  /\ prev_timestamp w' = (if (i =? 0)%nat then prev_timestamp w
                          else timestamp f).
Proof.
  intros Hi (H1 & H2 & H3 & H4 & H5 & H6) Hprev Hone Hus w'. subst w'.
  unfold usable in Hus. apply andb_prop in Hus as [Hus Hh].
  apply andb_prop in Hus as [Hus Ha]. apply andb_prop in Hus as [Hp Hv].
  unfold fill_frame, local_heading.
  destruct (Nat.leb_spec W i) as [?|_]; [lia|].
  assert (Hgate : negb (i =? 0)%nat
                  && (at_ 1%Z (has_history w) (i - 1) =? 0)%Z = false).
  { destruct (Nat.eqb_spec i 0) as [?|Hnz]; [done|]. cbn [negb andb].
    destruct Hprev as [?|Hp1]; [done|]. unfold at_. by rewrite Hp1. }
  rewrite Hgate, Hp, Hv, Ha, Hh.
  destruct (Nat.eqb_spec i 0) as [Hz|Hnz]; cbn [negb];
    cbn [has_history pos_history vel_history acc_history vel_heading_history
         vel_heading_changing_rate_history prev_timestamp
         set_pos set_vel set_acc set_vel_heading set_rate];
    rewrite ?list_lookup_insert_eq by lia; repeat (split; [done|]).
  - done.
  - split; [|done]. do 2 f_equal. unfold at_.
    rewrite list_lookup_insert_ne by lia.
    by rewrite list_lookup_insert_eq by lia.
Qed.

Lemma history_loop_usable_prefix start pos heading fs :
  forall i st d,
    (i + d < W)%nat ->
    window_sized cfg (snd st) ->
    (forall j, (i <= j < W)%nat -> has_history (snd st) !! j = Some 1%Z) ->
    (i = 0%nat \/ has_history (snd st) !! (i - 1)%nat = Some 1%Z) ->
    (i = 0%nat -> forall f, fs !! 0%nat = Some f ->
                            prev_timestamp (snd st) = timestamp f) ->
    (forall e, (e <= d)%nat -> frame_visited start fs e = true) ->
    (forall e f, (e <= d)%nat -> fs !! e = Some f -> usable f = true) ->
    exists f,
      fs !! d = Some f
      /\ frame_at (snd (history_loop cfg start pos heading fs i st)) (i + d)
         = (Some 1%Z,
            Some (WorldCoordToObjCoord
                    (point_x (position f), point_y (position f)) pos heading),
            Some (free_vector_to_obj (velocity f) pos heading),
            Some (free_vector_to_obj (acceleration f) pos heading),
            Some (local_heading heading f),
            entry_rate cfg heading fs i d (snd st) f).
Proof.
  induction fs as [|f0 rest IH];
    intros i st d Hd Hsized Hones Hprev Hts Hvis Hus.
  { specialize (Hvis 0%nat ltac:(lia)). done. }
  pose proof (Hvis 0%nat ltac:(lia)) as Hv0.
  assert (Hinit : IsInitialized f0 = true /\ (timestamp f0 <? start) = false).
  { cbn [frame_visited] in Hv0.
    destruct (IsInitialized f0), (timestamp f0 <? start); done. }
  destruct Hinit as [Hinit Hold].
  cbn [history_loop]. rewrite Hinit, Hold. cbn [negb].
  destruct (fill_frame_usable pos heading (f := f0) (i := i) (w := snd st))
    as (F1 & F2 & F3 & F4 & F5 & F6 & F7);
    [lia|done|done|apply Hones; lia|apply (Hus 0%nat); [lia|done]|].
  set (w' := fill_frame cfg pos heading f0 i (snd st)) in *.
  destruct d as [|d].
  - exists f0. split; [done|]. rewrite Nat.add_0_r.
    rewrite history_loop_frame_before by lia. cbn [snd].
    unfold frame_at, entry_rate. by rewrite F1, F2, F3, F4, F5, F6.
  - destruct (IH (S i) (push_samples f0 (fst st), w') d)
      as (f & Hf & Hframe); cbn [fst snd].
    + lia.
    + by apply fill_frame_sized.
    + intros j Hj.
      pose proof (fill_frame_other pos heading f0 (snd st) (i := i) (j := j)
                    ltac:(lia)) as Ho.
      unfold frame_at in Ho. fold w' in Ho. injection Ho as -> _ _ _ _ _.
      apply Hones. lia.
    + right. by rewrite Nat.sub_1_r.
    + intros ?; lia.
    + intros e He. specialize (Hvis (S e) ltac:(lia)).
      cbn [frame_visited] in Hvis. by rewrite Hinit, Hold in Hvis.
    + intros e g He Hg. apply (Hus (S e) g); [lia|done].
    + exists f. split; [done|].
      replace (i + S d)%nat with (S i + d)%nat by lia.
      cbn [snd] in Hframe. rewrite Hframe. f_equal.
      unfold entry_rate. destruct d as [|d]; [|done].
      cbn [Nat.eqb lookup list_lookup fmap option_fmap option_map].
      rewrite Nat.sub_1_r. cbn [Nat.pred]. unfold heading_rate, at_.
      rewrite F5, F7. destruct (Nat.eqb_spec i 0) as [Hz|_]; [|done].
      by rewrite (Hts Hz f0 eq_refl).
Qed.

(** X8: for an index [i < W] such that the walk visited every frame up
    to [i] and each of them was usable, frame [i] of the window holds the
    observation's position in the latest observation's frame, its velocity
    and acceleration as rotated free vectors, its local heading, and as
    heading rate 0 for frame 0 and otherwise the heading difference to the
    frame before over [FLAGS_double_precision] plus the (non-positive)
    timestamp difference. *)
Theorem window_content_usable_prefix (o : Obstacle D) (i : nat) :
  (i < W)%nat ->
  (forall j, (j <= i)%nat ->
             frame_visited (history_start_time cfg o) (feature_history o) j
             = true) ->
  (forall j f, (j <= i)%nat -> feature_history o !! j = Some f ->
               usable f = true) ->
  let w := snd (scan_history cfg o) in
  let pos0 := (point_x (position (latest_feature o)),
               point_y (position (latest_feature o))) in
  let h0 := velocity_heading_value (latest_feature o) in
  exists f,
    feature_history o !! i = Some f
    /\ has_history w !! i = Some 1%Z
    /\ pos_history w !! i
       = Some (WorldCoordToObjCoord
                 (point_x (position f), point_y (position f)) pos0 h0)
    /\ vel_history w !! i = Some (free_vector_to_obj (velocity f) pos0 h0)
    /\ acc_history w !! i = Some (free_vector_to_obj (acceleration f) pos0 h0)
    /\ vel_heading_history w !! i = Some (local_heading h0 f)
    /\ vel_heading_changing_rate_history w !! i
       = match i with
         | O => Some d0
         | S k => (fun g => heading_rate cfg h0 g f) <$> feature_history o !! k
         end.
Proof.
  intros Hi Hvis Hus w pos0 h0. subst w. unfold scan_history.
  fold pos0 h0.
  destruct (history_loop_usable_prefix
              (start := obstacle_timestamp o
                        - FLAGS_prediction_trajectory_time_length cfg)
              pos0 h0 (fs := feature_history o) (i := 0)
              (st := (init_samples, init_window cfg (latest_feature o)))
              (d := i)) as (f & Hf & Hframe).
  - lia.
  - apply init_window_sized.
  - intros j Hj. cbn [snd init_window has_history].
    apply lookup_replicate. split; [done|lia].
  - by left.
  - intros _ f Hf. cbn in Hf. by simplify_eq.
  - exact Hvis.
  - exact Hus.
  - exists f. split; [done|]. change (0 + i)%nat with i in Hframe.
    set (res := snd (history_loop _ _ _ _ _ _ _)) in *.
    unfold frame_at in Hframe.
    injection Hframe as -> -> -> -> -> ->.
    repeat (split; [done|]). unfold entry_rate.
    destruct i as [|k]; [|done].
    cbn [Nat.eqb snd init_window vel_heading_changing_rate_history].
    apply lookup_replicate. split; [done|lia].
Qed.
End WalkExtras.

(** ** The summary values at the edges *)

Section SummaryExtras.
Context {D : Type} {ops : DoubleOps D}.
Variable cfg : Config D.
Local Open Scope double_scope.

Lemma count_lane_samples (o : Obstacle D) :
  count (fst (scan_history cfg o)) = Z.of_nat (length (lane_samples cfg o)).
Proof. by destruct (scan_samples cfg o) as (_ & _ & _ & _ & _ & _ & _ & ?). Qed.

(** X9: with exactly one lane-attributed sample (the usual first cycle of
    an obstacle) and an epsilon that is not negative, every rate among the
    23 summary values is 0: the two delta rates, acceleration and jerk,
    and the four boundary-distance rates. *)
Theorem single_sample_rates_zero (o : Obstacle D) :
  (d0 >? depsilon) = false ->
  count (fst (scan_history cfg o)) = 1%Z ->
  let out := SetObstacleFeatureValues cfg o in
  out !! 4%nat = Some d0 /\ out !! 9%nat = Some d0
  /\ out !! 11%nat = Some d0 /\ out !! 12%nat = Some d0
  /\ out !! 14%nat = Some d0 /\ out !! 15%nat = Some d0
  /\ out !! 17%nat = Some d0 /\ out !! 18%nat = Some d0.
Proof.
  intros Heps Hcount out. subst out.
  rewrite count_lane_samples in Hcount.
  assert (Hone : length (lane_samples cfg o) = 1%nat) by lia.
  rewrite SetObstacleFeatureValues_nonempty
    by (intros Hnil; by rewrite Hnil in Hone).
  destruct (scan_samples cfg o) as (_ & _ & _ & _ & _ & Hsp & Hts & _).
  set (s := fst (scan_history cfg o)) in *.
  assert (Hlts : length (timestamps s) = 1%nat) by (by rewrite Hts, length_map).
  assert (Hlsp : length (speeds s) = 1%nat) by (by rewrite Hsp, length_map).
  assert (Hdt : delta_t_of s = d0) by (unfold delta_t_of; by rewrite Hlts).
  assert (Hrate : forall x, delta_rate (delta_t_of s) x = d0)
    by (intros x; unfold delta_rate; by rewrite Hdt, Heps).
  assert (Hacc : acc_jerk s (delta_t_of s) = (d0, d0))
    by (unfold acc_jerk; by rewrite Hlsp).
  assert (Hb : forall l, boundary_rate s l = d0)
    by (intros l; unfold boundary_rate; by rewrite Hlts).
  assert (Hbc : forall n l, boundary_rate_curr n (delta_t_of s) l = d0)
    by (intros n l; unfold boundary_rate_curr;
        by rewrite Hdt, Heps, andb_false_r).
  repeat split; rewrite lookup_app_l by (cbn; lia);
    unfold summary_features; cbn [lookup list_lookup];
    by rewrite ?Hrate, ?Hacc, ?Hb, ?Hbc.
Qed.
End SummaryExtras.

(** ** Means and the frame change over the reals *)

Module RealExtras.
Import RealDouble.
Local Open Scope R_scope.

Lemma fold_left_Rplus_bounds (lo hi : R) (l : list R) :
  Forall (fun x => lo <= x <= hi) l ->
  forall acc,
    acc + INR (length l) * lo <= fold_left Rplus l acc
    <= acc + INR (length l) * hi.
Proof.
  induction 1 as [|x l Hx _ IH]; intros acc.
  - simpl. lra.
  - cbn [fold_left length]. specialize (IH (acc + x)).
    rewrite S_INR. lra.
Qed.

Lemma ComputeMean_bounds (nums : list R) (start end_ : nat) (lo hi : R) :
  (start <= end_)%nat -> (start < length nums)%nat ->
  (forall i x, (start <= i <= end_)%nat -> nums !! i = Some x -> lo <= x <= hi) ->
  lo <= ComputeMean nums start end_ <= hi.
Proof.
  intros Hse Hlen Hall. unfold ComputeMean, mean_range.
  set (v := take (S end_ - start) (drop start nums)).
  assert (Hv : Forall (fun x => lo <= x <= hi) v).
  { apply Forall_lookup. intros j x Hj. subst v.
    apply lookup_take_Some in Hj as [Hj Hlt]. rewrite lookup_drop in Hj.
    apply (Hall (start + j)%nat x); [lia|done]. }
  assert (Hn : (0 < length v)%nat).
  { subst v. rewrite length_take, length_drop. lia. }
  destruct (Nat.eqb_spec (length v) 0) as [?|_]; [lia|].
  pose proof (fold_left_Rplus_bounds Hv 0) as Hb. cbn [d0 d_of_Z R_ops dadd ddiv].
  rewrite <- INR_IZR_INZ.
  assert (Hpos : 0 < INR (length v)) by (apply lt_0_INR; lia).
  rewrite !Rplus_0_l in Hb.
  set (total := fold_left Rplus v 0) in *.
  assert (Heq : total / INR (length v) * INR (length v) = total)
    by (field; lra).
  split; apply Rmult_le_reg_r with (INR (length v)); try done;
    rewrite Heq; lra.
Qed.


Lemma ComputeMean_constant (nums : list R) (start end_ : nat) (c : R) :
  (start <= end_)%nat -> (start < length nums)%nat ->
  (forall x, x ∈ nums -> x = c) ->
  ComputeMean nums start end_ = c.
Proof.
  intros Hse Hlen Hall.
  assert (H : c <= ComputeMean nums start end_ <= c).
  { apply ComputeMean_bounds; [done|done|].
    intros i x _ Hx. rewrite (Hall x (list_elem_of_lookup_2 _ _ _ Hx)). lra. }
  lra.
Qed.

Lemma obj_coord_closed_form (px py ox oy a : R) :
  WorldCoordToObjCoord (px, py) (ox, oy) a
  = (cos a * (px - ox) + sin a * (py - oy),
     cos a * (py - oy) - sin a * (px - ox)).
Proof.
  unfold WorldCoordToObjCoord. cbn.
  set (dx := px - ox). set (dy := py - oy).
  pose proof (RealFrame.polar_cos dx dy) as Hc.
  pose proof (RealFrame.polar_sin dx dy) as Hs.
  set (rho := sqrt (dx * dx + dy * dy)) in *.
  set (theta := Ratan2 dy dx) in *.
  rewrite cos_minus, sin_minus. f_equal.
  - transitivity (cos a * (cos theta * rho) + sin a * (sin theta * rho));
      [ring|]. by rewrite Hc, Hs.
  - transitivity (cos a * (sin theta * rho) - sin a * (cos theta * rho));
      [ring|]. by rewrite Hc, Hs.
Qed.

(** X11: over the reals, [WorldCoordToObjCoord] is the offset from the
    object rotated by minus the object's angle. *)
Theorem world_to_obj_is_rotation (p o : R * R) (a : R) :
  WorldCoordToObjCoord p o a
  = (cos a * (fst p - fst o) + sin a * (snd p - snd o),
     cos a * (snd p - snd o) - sin a * (fst p - fst o)).
Proof. destruct p, o. apply obj_coord_closed_form. Qed.

(** X12: over the reals, the local coordinates are as far from the origin
    as the point is from the object. *)
Theorem world_to_obj_keeps_distance (p o : R * R) (a : R) :
  let q := WorldCoordToObjCoord p o a in
  fst q * fst q + snd q * snd q
  = (fst p - fst o) * (fst p - fst o) + (snd p - snd o) * (snd p - snd o).
Proof.
  destruct p as [px py], o as [ox oy]. rewrite obj_coord_closed_form.
  cbn [fst snd]. pose proof (sin2_cos2 a) as Hone. unfold Rsqr in Hone.
  set (dx := px - ox). set (dy := py - oy).
  transitivity ((sin a * sin a + cos a * cos a) * (dx * dx + dy * dy));
    [ring|]. rewrite Hone. ring.
Qed.


End RealExtras.

(** ** Which neighbours the interaction scan selects *)

Section InteractionExtras.
Context {D : Type} {ops : DoubleOps D}.
Variable cfg : Config D.
Variable GetObstacle : Z -> option (Obstacle D).
Local Open Scope double_scope.

(** X15: [SetInteractionFeatureValues] aborts exactly when the forward or
    the backward neighbour it selected carries an id the container does
    not know; entries that were not selected are never looked up. *)
Theorem interaction_aborts_on_unknown_id (s : LaneSequence D) :
  let fb := nearest_obstacles cfg (nearby_obstacle s) in
  SetInteractionFeatureValues cfg GetObstacle s = None
  <-> exists n i, (n = fst fb \/ n = snd fb)
                  /\ no_id n = Some i /\ GetObstacle i = None.
Proof.
  intros fb. unfold SetInteractionFeatureValues, neighbour_values. fold fb.
  destruct (no_id (fst fb)) as [i|] eqn:Hf;
    [destruct (GetObstacle i) as [obs|] eqn:Hi|];
    (destruct (no_id (snd fb)) as [j|] eqn:Hb;
     [destruct (GetObstacle j) as [obs'|] eqn:Hj|]);
    split; try done;
    try (intros (n & k & [-> | ->] & Hn & Hk); congruence);
    intros _;
    first [ by (exists (fst fb), i; split; [by left|done])
          | by (exists (snd fb), j; split; [by right|done]) ].
Qed.

Section WithOrder.
Hypothesis dlt_irrefl : forall x : D, (x <? x) = false.
Hypothesis dlt_trans :
  forall x y z : D, (x <? y) = true -> (y <? z) = true -> (x <? z) = true.

Lemma dlt_not_before x y z :
  (x <? y) = false -> (z <? y) = true -> (x <? z) = false.
Proof.
  intros Hxy Hzy. destruct (x <? z) eqn:Hxz; [|done].
  by rewrite (dlt_trans Hxz Hzy) in Hxy.
Qed.

Lemma dlt_not_after x y z :
  (y <? x) = false -> (y <? z) = true -> (z <? x) = false.
Proof.
  intros Hyx Hyz. destruct (z <? x) eqn:Hzx; [|done].
  by rewrite (dlt_trans Hyz Hzx) in Hyx.
Qed.

Lemma nearest_fold_selected (seen l : list (NearbyObstacle D)) fb :
  selected_from cfg seen fb ->
  selected_from cfg (seen ++ l) (fold_left nearest_step l fb).
Proof.
  revert seen fb. induction l as [|m l IH]; intros seen fb Hsel; simpl.
  - by rewrite app_nil_r.
  - replace (seen ++ m :: l) with ((seen ++ [m]) ++ l)
      by (by rewrite <- app_assoc).
    apply IH. clear IH. destruct Hsel as (Hf & Hfmin & Hb & Hbmax).
    assert (Hin : forall n, n ∈ seen -> n ∈ seen ++ [m])
      by (intros n Hn; apply elem_of_app; by left).
    assert (Hm : m ∈ seen ++ [m])
      by (apply elem_of_app; right; apply list_elem_of_here).
    unfold selected_from, nearest_step.
    destruct (no_s m <? d0) eqn:Hneg.
    + destruct (no_s m >? no_s (snd fb)) eqn:Hgt; cbn [fst snd].
      * split; [destruct Hf as [?|(n & ? & ? & ?)]; [by left|right; eauto]|].
        split.
        { intros n Hn Hnn. apply elem_of_app in Hn as [Hn|Hn]; [eauto|].
          apply list_elem_of_singleton in Hn. subst n. congruence. }
        split; [right; by exists m|].
        intros n Hn Hnn. apply elem_of_app in Hn as [Hn|Hn].
        -- by apply (dlt_not_after (Hbmax n Hn Hnn)).
        -- apply list_elem_of_singleton in Hn. subst n. apply dlt_irrefl.
      * split; [destruct Hf as [?|(n & ? & ? & ?)]; [by left|right; eauto]|].
        split.
        { intros n Hn Hnn. apply elem_of_app in Hn as [Hn|Hn]; [eauto|].
          apply list_elem_of_singleton in Hn. subst n. congruence. }
        split; [destruct Hb as [?|(n & ? & ? & ?)]; [by left|right; eauto]|].
        intros n Hn Hnn. apply elem_of_app in Hn as [Hn|Hn]; [eauto|].
        apply list_elem_of_singleton in Hn. by subst n.
    + destruct (no_s m <? no_s (fst fb)) eqn:Hlt; cbn [fst snd].
      * split; [right; by exists m|]. split.
        { intros n Hn Hnn. apply elem_of_app in Hn as [Hn|Hn].
          - by apply (dlt_not_before (Hfmin n Hn Hnn)).
          - apply list_elem_of_singleton in Hn. subst n. apply dlt_irrefl. }
        split; [destruct Hb as [?|(n & ? & ? & ?)]; [by left|right; eauto]|].
        intros n Hn Hnn. apply elem_of_app in Hn as [Hn|Hn]; [eauto|].
        apply list_elem_of_singleton in Hn. subst n. congruence.
      * split; [destruct Hf as [?|(n & ? & ? & ?)]; [by left|right; eauto]|].
        split.
        { intros n Hn Hnn. apply elem_of_app in Hn as [Hn|Hn]; [eauto|].
          apply list_elem_of_singleton in Hn. by subst n. }
        split; [destruct Hb as [?|(n & ? & ? & ?)]; [by left|right; eauto]|].
        intros n Hn Hnn. apply elem_of_app in Hn as [Hn|Hn]; [eauto|].
        apply list_elem_of_singleton in Hn. subst n. congruence.
Qed.

(** X16: with an irreflexive, transitive comparison, the forward
    neighbour is the default or a copy of a scanned entry with
    non-negative s, and no scanned entry with non-negative s is strictly
    nearer than it; the backward neighbour is the default or a copy of
    an entry with negative s, and no entry with negative s is strictly
    nearer. *)
Theorem nearest_neighbours_selected (l : list (NearbyObstacle D)) :
  let fb := nearest_obstacles cfg l in
  (fst fb = init_forward cfg
   \/ exists n, n ∈ l /\ (no_s n <? d0) = false /\ fst fb = take_over n)
  /\ (forall n, n ∈ l -> (no_s n <? d0) = false ->
                (no_s n <? no_s (fst fb)) = false)
  /\ (snd fb = init_backward cfg
      \/ exists n, n ∈ l /\ (no_s n <? d0) = true /\ snd fb = take_over n)
  /\ (forall n, n ∈ l -> (no_s n <? d0) = true ->
                (no_s n >? no_s (snd fb)) = false).
Proof.
  apply (nearest_fold_selected (seen := []) l
           (fb := (init_forward cfg, init_backward cfg))).
  unfold selected_from. cbn [fst snd].
  split; [by left|]. split; [intros n Hn; by apply elem_of_nil in Hn|].
  split; [by left|]. intros n Hn; by apply elem_of_nil in Hn.
Qed.
End WithOrder.
End InteractionExtras.

(** ** The lane block: what it depends on and how long it gets *)

Section LaneExtras.
Context {D : Type} {ops : DoubleOps D}.
Variable cfg : Config D.
Local Open Scope double_scope.

Local Abbreviation L := (LANE_POINTS_SIZE cfg).

Lemma SetLaneFeatureValues_unusable (o : Obstacle D) (s : LaneSequence D) :
  IsInitialized (latest_feature o) = false
  \/ position (latest_feature o) = None ->
  SetLaneFeatureValues cfg o s = [].
Proof.
  intros [H|H]; unfold SetLaneFeatureValues; rewrite H; [done|].
  by destruct (IsInitialized (latest_feature o)).
Qed.

Lemma SetLaneFeatureValues_points (o : Obstacle D) (s : LaneSequence D) :
  SetLaneFeatureValues cfg o s
  = if IsInitialized (latest_feature o)
       && bool_decide (is_Some (position (latest_feature o)))
    then extrapolate_loop cfg L
           (flat_map (lane_point_values (latest_feature o)
                        (velocity_heading_value (latest_feature o)))
                     (take L (positioned_points s)))
    else [].
Proof.
  destruct (IsInitialized (latest_feature o)) eqn:Hi; cbn [andb].
  - case_bool_decide as Hp.
    + by apply SetLaneFeatureValues_raw.
    + apply SetLaneFeatureValues_unusable. right.
      destruct (position (latest_feature o)); [|done].
      exfalso. apply Hp. by eexists.
  - apply SetLaneFeatureValues_unusable. by left.
Qed.

(** X17: the lane block depends on the lane sequence only through its
    first [LANE_POINTS_SIZE] positioned lane points: how the points are
    split into segments, points without position and any further points
    make no difference. *)
Theorem lane_block_depends_on_leading_points (o : Obstacle D)
    (s s' : LaneSequence D) :
  take L (positioned_points s) = take L (positioned_points s') ->
  SetLaneFeatureValues cfg o s = SetLaneFeatureValues cfg o s'.
Proof. intros H. by rewrite !SetLaneFeatureValues_points, H. Qed.

(** X18: whatever the obstacle and the sequence, the lane block holds
    whole points (a multiple of four values), never more than
    [LANE_POINTS_SIZE] of them, and the extrapolation loop has run to its
    end: the block has fewer than 10 values or is full. *)
Theorem lane_block_length_bounds (o : Obstacle D) (s : LaneSequence D) :
  let out := SetLaneFeatureValues cfg o s in
  (exists k, (k <= L)%nat /\ length out = (4 * k)%nat)
  /\ ((length out < 10)%nat \/ length out = (4 * L)%nat).
Proof.
  intros out. subst out. rewrite SetLaneFeatureValues_points.
  destruct (IsInitialized (latest_feature o)
            && bool_decide (is_Some (position (latest_feature o)))).
  2:{ split; [exists 0%nat; split; [lia|done]|left; cbn; lia]. }
  set (raw := flat_map _ _).
  assert (Hraw : length raw
                 = (4 * Nat.min L (length (positioned_points s)))%nat).
  { subst raw. by rewrite length_lane_values, length_take. }
  destruct (decide (3 <= Nat.min L (length (positioned_points s)))%nat)
    as [Hthree|Hfew].
  - destruct (extrapolate_loop_spec (cfg := cfg) (fuel := L) Hraw) as (H1 & _);
      [lia|lia|].
    rewrite H1. split; [exists L; split; [lia|done]|by right].
  - rewrite extrapolate_loop_short by lia. rewrite Hraw.
    split; [eexists; split; [|done]; lia|left; lia].
Qed.
End LaneExtras.

(** ** [Evaluate] as a whole: frame, model runs, repetition *)

Section EvaluateExtras.
Context {D : Type} {ops : DoubleOps D}.
Variable cfg : Config D.
Variable GetObstacle : Z -> option (Obstacle D).
Variable go_model_Run cutin_model_Run : list (list D) -> list (list D) -> D * D.
Local Open Scope double_scope.

Local Abbreviation O_SIZE := (OBSTACLE_FEATURE_SIZE cfg).
Local Abbreviation L_SIZE := (SINGLE_LANE_FEATURE_SIZE * LANE_POINTS_SIZE cfg)%nat.
Local Abbreviation extract_values := (ExtractFeatureValues cfg GetObstacle).
Local Abbreviation eval_seq :=
  (evaluate_sequence cfg GetObstacle go_model_Run cutin_model_Run).
Local Abbreviation eval_all :=
  (evaluate_all cfg GetObstacle go_model_Run cutin_model_Run).
Local Abbreviation offline := (FLAGS_prediction_offline_mode cfg).
Local Abbreviation evaluate :=
  (Evaluate cfg GetObstacle go_model_Run cutin_model_Run).

(** X19: [SaveOfflineFeatures] appends the values, in order, to the
    sequence's stored features and changes no other field. *)
Theorem save_offline_appends (s : LaneSequence D) (fv : list D) :
  let s' := SaveOfflineFeatures s fv in
  mlp_features s' = mlp_features s ++ fv
  /\ lane_segment s' = lane_segment s
  /\ vehicle_on_lane s' = vehicle_on_lane s
  /\ nearby_obstacle s' = nearby_obstacle s
  /\ probability s' = probability s
  /\ time_to_lane_center s' = time_to_lane_center s.
Proof.
  destruct (SaveOfflineFeatures_fields s fv) as (? & ? & ? & ? & ? & ?).
  by repeat split.
Qed.

(** X20: [ExtractFeatureValues] never clears its output vector: called on
    a vector that already holds values, it aborts when it would abort on
    an empty one and otherwise returns those values followed by the
    blocks it would have produced from empty. *)
Theorem extract_keeps_prefix (o : Obstacle D) (s : LaneSequence D)
    (fv0 : list D) :
  match extract_values o s [] with
  | None => extract_values o s fv0 = None
  | Some (_, fv) => exists s', extract_values o s fv0 = Some (s', fv0 ++ fv)
  end.
Proof.
  unfold ExtractFeatureValues.
  destruct (negb (length (SetObstacleFeatureValues cfg o) =? O_SIZE)%nat).
  { exists s. by rewrite app_nil_r. }
  destruct (SetInteractionFeatureValues cfg GetObstacle s) as [inter|];
    [|done].
  destruct (negb (length inter =? INTERACTION_FEATURE_SIZE)%nat).
  { exists s. cbn [app]. done. }
  destruct (negb (length (SetLaneFeatureValues cfg o s) =? L_SIZE)%nat).
  { exists s. cbn [app]. by rewrite <- app_assoc. }
  destruct offline; eexists; cbn [app]; by rewrite <- !app_assoc.
Qed.

(** The loop body keeps the inputs of a sequence, and outside offline
    mode its stored features. *)
Lemma eval_seq_keeps_inputs (o : Obstacle D) i s s' c :
  eval_seq o i s = Some (s', c) ->
  lane_segment s' = lane_segment s
  /\ vehicle_on_lane s' = vehicle_on_lane s
  /\ nearby_obstacle s' = nearby_obstacle s
  /\ (offline = false -> mlp_features s' = mlp_features s).
Proof.
  unfold evaluate_sequence.
  destruct (extract_values o s []) as [[s1 fv]|] eqn:He; [|done].
  assert (Hs1 : lane_segment s1 = lane_segment s
                /\ vehicle_on_lane s1 = vehicle_on_lane s
                /\ nearby_obstacle s1 = nearby_obstacle s
                /\ (offline = false -> mlp_features s1 = mlp_features s)).
  { destruct (ExtractFeatureValues_inv He) as [[_ ->]|[_ ->]]; [done|].
    destruct offline; [|done].
    destruct (SaveOfflineFeatures_fields s fv) as (? & ? & ? & _).
    by repeat split. }
  destruct Hs1 as (H1 & H2 & H3 & H4).
  repeat case_match; intros ?; simplify_eq; cbn;
    repeat split; (congruence || done).
Qed.

(** The two outcomes of the loop body outside offline mode. *)
Lemma eval_seq_online_form (o : Obstacle D) i s r c :
  offline = false -> eval_seq o i s = Some (r, c) ->
  exists fv,
    extract_values o s [] = Some (s, fv)
    /\ ((length fv <> feature_size cfg /\ r = set_probability s d0 /\ c = [])
        \/ (length fv = feature_size cfg
            /\ exists obs_mat lane_mat,
                 VectorToMatrixXf_row fv 0 O_SIZE = Some obs_mat
                 /\ VectorToMatrixXf fv (O_SIZE + INTERACTION_FEATURE_SIZE)
                      (length fv) SINGLE_LANE_FEATURE_SIZE
                      (LANE_POINTS_SIZE cfg) = Some lane_mat
                 /\ let k := if vehicle_on_lane s
                             then GoModel else CutinModel in
                    let out := run_model go_model_Run cutin_model_Run k
                                         lane_mat obs_mat in
                    r = set_time_to_lane_center
                          (set_probability s (fst out)) (snd out)
                    /\ c = [mkModelCall k i lane_mat obs_mat])).
Proof.
  intros Hon. unfold evaluate_sequence.
  destruct (extract_values o s []) as [[s1 fv]|] eqn:He; [|done].
  assert (s1 = s) as ->.
  { destruct (ExtractFeatureValues_inv He) as [[_ ->]|[_ ->]]; [done|].
    by rewrite Hon. }
  rewrite Hon. cbn [negb].
  destruct (Nat.eqb_spec (length fv) (feature_size cfg)) as [Hfull|Hwrong];
    cbn [negb].
  - destruct (VectorToMatrixXf_row fv 0 O_SIZE) as [obs_mat|] eqn:Ho; [|done].
    destruct (VectorToMatrixXf fv _ _ _ _) as [lane_mat|] eqn:Hl; [|done].
    intros ?; simplify_eq. exists fv. split; [done|]. right.
    split; [done|]. exists obs_mat, lane_mat. cbn zeta. by repeat split.
  - intros ?; simplify_eq. exists fv. split; [done|]. by left.
Qed.

Lemma extract_values_same_inputs (o : Obstacle D) s s' fv :
  offline = false ->
  lane_segment s' = lane_segment s -> nearby_obstacle s' = nearby_obstacle s ->
  extract_values o s [] = Some (s, fv) ->
  extract_values o s' [] = Some (s', fv).
Proof.
  intros Hon Hseg Hnear. rewrite !ExtractFeatureValues_cases, Hon.
  assert (Hi : SetInteractionFeatureValues cfg GetObstacle s'
               = SetInteractionFeatureValues cfg GetObstacle s)
    by (unfold SetInteractionFeatureValues; by rewrite Hnear).
  assert (Hl : SetLaneFeatureValues cfg o s' = SetLaneFeatureValues cfg o s)
    by (unfold SetLaneFeatureValues; by rewrite Hseg).
  rewrite Hi, Hl. repeat case_match; intros ?; by simplify_eq.
Qed.

(** Outside offline mode, the loop body applied to its own result returns
    it again, with the same model run. *)
Lemma eval_seq_online_again (o : Obstacle D) i s r c :
  offline = false -> eval_seq o i s = Some (r, c) ->
  eval_seq o i r = Some (r, c).
Proof.
  intros Hon Hs.
  destruct (eval_seq_keeps_inputs Hs) as (Hseg & Hveh & Hnear & _).
  destruct (eval_seq_online_form Hon Hs) as (fv & He & Hcase).
  pose proof (extract_values_same_inputs (s' := r) Hon Hseg Hnear He) as He'.
  unfold evaluate_sequence. rewrite He', Hon. cbn [negb].
  destruct Hcase as [(Hwrong & -> & ->)|(Hfull & obs & lane & Ho & Hl & Hr)].
  - by destruct (Nat.eqb_spec (length fv) (feature_size cfg)).
  - destruct (Nat.eqb_spec (length fv) (feature_size cfg)) as [_|?]; [|done].
    cbn [negb]. rewrite Ho, Hl, Hveh. cbn zeta in Hr.
    destruct Hr as [-> ->]. done.
Qed.

Lemma eval_all_online_again (o : Obstacle D) ss :
  offline = false ->
  forall i ss' cs, eval_all o i ss = Some (ss', cs) ->
                   eval_all o i ss' = Some (ss', cs).
Proof.
  intros Hon. induction ss as [|s rest IH]; intros i ss' cs H; simpl in H.
  - by simplify_eq.
  - destruct (eval_seq o i s) as [[r c]|] eqn:Hs; [|done].
    destruct (eval_all o (S i) rest) as [[rest' cs']|] eqn:Hr; [|done].
    simplify_eq. simpl.
    by rewrite (eval_seq_online_again Hon Hs), (IH _ _ _ Hr).
Qed.

Lemma eval_all_relane (o : Obstacle D) l ss :
  forall i, eval_all (relane o l) i ss = eval_all o i ss.
Proof.
  induction ss as [|s rest IH]; intros i; simpl; [done|].
  by rewrite evaluate_sequence_relane, IH.
Qed.

Lemma reaches_loop_relane (o : Obstacle D) l :
  has_graph o = true -> length l = length (lane_sequences o) ->
  reaches_loop (relane o l) = reaches_loop o.
Proof.
  intros Hg Hlen. unfold reaches_loop.
  rewrite lane_sequences_relane, Hlen by done.
  destruct (with_lane_sequences_fields (latest_feature o) l) as (Hi & _).
  unfold relane. cbn [latest_feature]. by rewrite Hi.
Qed.

(** X21: outside offline mode, running [Evaluate] again on the obstacle
    it returned changes nothing more: it returns the same obstacle and
    makes the same model runs. *)
Theorem evaluate_online_idempotent (o o' : Obstacle D) sink calls out sink' :
  offline = false ->
  evaluate o sink = Some (o', calls, out) ->
  evaluate o' sink' = Some (o', calls, sink').
Proof.
  intros Hon. rewrite !Evaluate_all, Hon.
  destruct (reaches_loop o) eqn:Hr; cbn [negb].
  - pose proof (reaches_loop_has_graph Hr) as Hg.
    destruct (eval_all o 0 (lane_sequences o)) as [[ss' cs]|] eqn:Hall;
      [|done].
    intros ?; simplify_eq.
    destruct (evaluate_all_lookup Hall) as [Hlen _].
    rewrite reaches_loop_relane, Hr by done. cbn [negb].
    rewrite lane_sequences_relane, eval_all_relane by done.
    rewrite (eval_all_online_again Hon Hall). by rewrite relane_relane.
  - intros ?; simplify_eq. by rewrite Hr.
Qed.

(** X22: an obstacle whose latest observation is not initialized, or has
    no lane, no lane graph or no lane sequence, is skipped: [Evaluate]
    returns it unchanged, runs no model and, also in offline mode, leaves
    the feature output as it was. *)
Theorem evaluate_skips_obstacle_without_candidates (o : Obstacle D) sink :
  IsInitialized (latest_feature o) = false \/ lane_sequences o = [] ->
  evaluate o sink = Some (o, [], sink).
Proof.
  intros H. rewrite Evaluate_all.
  assert (Hr : reaches_loop o = false).
  { unfold reaches_loop. destruct H as [-> | ->]; [done|].
    cbn. apply andb_false_r. }
  by rewrite Hr.
Qed.

(** X23: whatever [Evaluate] returns, the obstacle keeps its id, its older
    observations and every field of its latest observation other than the
    lane graph's sequences; there are as many sequences as before and each
    keeps its lane segments, its on-lane flag and its nearby obstacles;
    and the feature output is unchanged or, in offline mode only, longer
    by the latest observation. *)
Theorem evaluate_frame (o o' : Obstacle D) sink calls out :
  evaluate o sink = Some (o', calls, out) ->
  id o' = id o /\ older_features o' = older_features o
  /\ (let f := latest_feature o in
      let f' := latest_feature o' in
      IsInitialized f' = IsInitialized f /\ timestamp f' = timestamp f
      /\ position f' = position f /\ velocity f' = velocity f
      /\ acceleration f' = acceleration f
      /\ velocity_heading f' = velocity_heading f
      /\ speed f' = speed f /\ length_ f' = length_ f
      /\ lane_feature_of f' = lane_feature_of f)
  /\ length (lane_sequences o') = length (lane_sequences o)
  /\ (forall i s s', lane_sequences o !! i = Some s ->
                     lane_sequences o' !! i = Some s' ->
                     lane_segment s' = lane_segment s
                     /\ vehicle_on_lane s' = vehicle_on_lane s
                     /\ nearby_obstacle s' = nearby_obstacle s)
  /\ (out = sink \/ (offline = true /\ out = sink ++ [latest_feature o'])).
Proof.
  rewrite Evaluate_all. destruct (reaches_loop o) eqn:Hr; cbn [negb].
  2:{ intros ?; simplify_eq. cbn zeta.
      intuition (simplify_eq; congruence || auto). }
  pose proof (reaches_loop_has_graph Hr) as Hg.
  destruct (eval_all o 0 (lane_sequences o)) as [[ss' cs]|] eqn:Hall; [|done].
  destruct (evaluate_all_lookup Hall) as [Hlen Hlook].
  intros Hres.
  assert (Ho' : o' = relane o ss') by (destruct offline; by simplify_eq).
  subst o'. rewrite lane_sequences_relane by done.
  split; [done|]. split; [done|].
  split; [apply with_lane_sequences_fields|]. split; [done|]. split.
  - intros i s s' Hs Hs'.
    destruct (Hlook i s Hs) as (r & c & Hseq & Hr' & _). simplify_eq.
    destruct (eval_seq_keeps_inputs Hseq) as (? & ? & ? & _). done.
  - destruct offline; simplify_eq; [by right|by left].
Qed.

Lemma eval_all_all_wrong (o : Obstacle D) ss :
  (forall s, s ∈ ss ->
             exists s1 fv, extract_values o s [] = Some (s1, fv)
                           /\ length fv <> feature_size cfg) ->
  forall i, eval_all o i ss = Some (map (fun s => set_probability s d0) ss, []).
Proof.
  induction ss as [|s rest IH]; intros Hall i; simpl; [done|].
  destruct (Hall s ltac:(left)) as (s1 & fv & He & Hwrong).
  rewrite (eval_seq_wrong_length go_model_Run cutin_model_Run i He Hwrong).
  rewrite IH; [done|]. intros t Ht. apply Hall. by right.
Qed.

(** X24: when the latest observation has no position the lane block is
    empty, so (with at least one lane point wanted and every scanned id
    known to the container) [Evaluate] runs no model and sets the
    probability of every candidate to 0, in either mode. *)
Theorem no_position_zeroes_candidates (o : Obstacle D) sink :
  position (latest_feature o) = None ->
  (0 < LANE_POINTS_SIZE cfg)%nat ->
  reaches_loop o = true ->
  (forall s, s ∈ lane_sequences o -> ids_resolve GetObstacle s) ->
  exists o' out,
    evaluate o sink = Some (o', [], out)
    /\ lane_sequences o'
       = map (fun s => set_probability s d0) (lane_sequences o).
Proof.
  intros Hpos HL Hr Hres.
  pose proof (reaches_loop_has_graph Hr) as Hg.
  rewrite Evaluate_all, Hr. cbn [negb].
  rewrite eval_all_all_wrong.
  - destruct offline; eexists _, _; (split; [done|]);
      by rewrite lane_sequences_relane.
  - intros s Hs. rewrite ExtractFeatureValues_cases.
    rewrite (SetLaneFeatureValues_unusable cfg s (or_intror Hpos)).
    destruct (Nat.eqb_spec (length (SetObstacleFeatureValues cfg o)) O_SIZE)
      as [Ho|Ho]; cbn [negb].
    2:{ exists s, []. split; [done|]. unfold feature_size,
          INTERACTION_FEATURE_SIZE. cbn [length]. lia. }
    destruct (SetInteractionFeatureValues_total cfg (Hres s Hs))
      as (flen & fspeed & blen & bspeed & Hi & _).
    rewrite Hi.
    destruct (Nat.eqb_spec (length (@nil D)) L_SIZE) as [Hz|_]; cbn [negb].
    { unfold SINGLE_LANE_FEATURE_SIZE in Hz. cbn [length] in Hz. lia. }
    eexists s, _. split; [done|]. rewrite length_app, Ho.
    unfold feature_size, INTERACTION_FEATURE_SIZE, SINGLE_LANE_FEATURE_SIZE.
    cbn [length]. lia.
Qed.

Lemma evaluate_all_calls_below (o : Obstacle D) ss :
  forall i ss' cs, eval_all o i ss = Some (ss', cs) ->
                   forall x, x ∈ cs -> (call_sequence x < i + length ss)%nat.
Proof.
  induction ss as [|s rest IH]; intros i ss' cs H x Hx; simpl in H.
  - simplify_eq. by apply elem_of_nil in Hx.
  - destruct (eval_seq o i s) as [[s' c]|] eqn:Hs; [|done].
    destruct (eval_all o (S i) rest) as [[rest' cs']|] eqn:Hr; [|done].
    simplify_eq. cbn [length]. apply elem_of_app in Hx as [Hx|Hx].
    + rewrite (eval_seq_calls Hs Hx). lia.
    + specialize (IH _ _ _ Hr x Hx). lia.
Qed.

(** X25: every model run [Evaluate] makes belongs to one candidate of the
    obstacle, uses the go model exactly when that candidate is flagged
    on-lane, and is the only run for that candidate; in offline mode
    there is no run at all. *)
Theorem model_runs_one_per_candidate (o o' : Obstacle D) sink calls out :
  evaluate o sink = Some (o', calls, out) ->
  (offline = true -> calls = [])
  /\ forall c, c ∈ calls ->
       exists s,
         lane_sequences o !! call_sequence c = Some s
         /\ call_model c = (if vehicle_on_lane s then GoModel else CutinModel)
         /\ filter (fun x => call_sequence x = call_sequence c) calls = [c].
Proof.
  rewrite Evaluate_all. destruct (reaches_loop o) eqn:Hr; cbn [negb].
  2:{ intros ?; simplify_eq. split; [done|].
      intros c Hc. by apply elem_of_nil in Hc. }
  destruct (eval_all o 0 (lane_sequences o)) as [[ss' cs]|] eqn:Hall; [|done].
  intros Hres. assert (cs = calls) as -> by (destruct offline; by simplify_eq).
  clear Hres. split.
  { intros Hoff. exact (evaluate_all_offline_calls Hoff Hall). }
  intros c Hc. destruct (evaluate_all_lookup Hall) as [_ Hlook].
  pose proof (evaluate_all_calls_below Hall Hc) as Hlt. cbn [Nat.add] in Hlt.
  destruct (lookup_lt_is_Some_2 _ _ Hlt) as [s Hs].
  destruct (Hlook _ s Hs) as (r & cj & Hseq & _ & Hfilter).
  cbn [Nat.add] in Hseq, Hfilter.
  assert (Hin : c ∈ cj) by (rewrite <- Hfilter; by apply list_elem_of_filter).
  exists s. split; [done|].
  destruct offline eqn:Hoff.
  - rewrite (eval_seq_offline_calls Hoff Hseq) in Hin.
    by apply elem_of_nil in Hin.
  - destruct (eval_seq_online_form Hoff Hseq)
      as (fv & _ & [(_ & _ & ->)|(_ & obs & lane & _ & _ & Hrun)]).
    + by apply elem_of_nil in Hin.
    + cbn zeta in Hrun. destruct Hrun as [_ ->].
      apply list_elem_of_singleton in Hin. split.
      * by rewrite Hin.
      * rewrite Hfilter. by rewrite <- Hin.
Qed.
End EvaluateExtras.

(** ** The further properties at the scenarios *)

Module FurtherChecks.
Import RationalDouble Scenario FurtherScenario ScenarioFacts.
Local Open Scope Q_scope.

(** X1 at a start index behind the end of a three-element vector. *)
Lemma ComputeMean_empty_range_witness : ComputeMean [1; 2; 3] 5 9 = 0.
Proof.
  apply (@ComputeMean_empty_range Q Q_ops [1; 2; 3] 5 9).
  left. simpl. lia.
Defined.

(** X2 at end indices 4 and 9 on a three-element vector. *)
Lemma ComputeMean_end_clipped_witness :
  ComputeMean [1; 2; 3] 0 4 = ComputeMean [1; 2; 3] 0 9.
Proof.
  apply (@ComputeMean_end_clipped Q Q_ops [1; 2; 3] 0 4 9); simpl; lia.
Defined.

(** X5 at two observations: the sampled timestamp 100 is not before
    [100 - 8]. *)
Lemma sampled_timestamps_witness :
  dlt 100 (dsub (obstacle_timestamp obstacle_two_frames)
                (FLAGS_prediction_trajectory_time_length cfg_online))
  = false.
Proof.
  apply (@sampled_timestamps_within_horizon Q Q_ops cfg_online
           obstacle_two_frames 100).
  vm_compute. left.
Defined.

(** X6 at a history whose third observation is 50 s old: the walk sees
    what it sees on the first two observations alone. *)
Lemma scan_ignores_stale_witness :
  scan_history cfg_online obstacle_stale_frame
  = scan_history cfg_online obstacle_two_frames.
Proof.
  apply (@scan_ignores_frames_behind_old_one Q Q_ops cfg_online
           obstacle_stale_frame [moving_frame (999 # 10) None]
           (moving_frame 50 None) [moving_frame (998 # 10) None]);
    reflexivity.
Defined.

(** X8 at two usable observations, frame 1: the heading rate is
    [0 / (1/1000000 + 99.9 - 100)]. *)
Lemma window_content_witness :
  let w := snd (scan_history cfg_online obstacle_two_frames) in
  pos_history w !! 1%nat = Some (0, 0)
  /\ vel_history w !! 1%nat = Some (1, 0)
  /\ vel_heading_changing_rate_history w !! 1%nat = Some 0.
Proof.
  destruct (@window_content_usable_prefix Q Q_ops cfg_online
              obstacle_two_frames 1)
    as (f & Hf & _ & Hpos & Hvel & _ & _ & Hrate).
  - vm_compute. lia.
  - intros j Hj.
    assert (Hcase : j = 0%nat \/ j = 1%nat) by lia.
    destruct Hcase as [->| ->]; vm_compute; reflexivity.
  - intros j f Hj Hf.
    assert (Hcase : j = 0%nat \/ j = 1%nat) by lia.
    destruct Hcase as [->| ->]; vm_compute in Hf; simplify_eq; reflexivity.
  - vm_compute in Hf. injection Hf as <-. cbn zeta.
    rewrite Hpos, Hvel, Hrate. repeat split; vm_compute; reflexivity.
Defined.

(** X9 at one observation with lane attributes: acceleration and jerk. *)
Lemma single_sample_rates_witness :
  SetObstacleFeatureValues cfg_online obstacle_with_candidates !! 11%nat
  = Some 0
  /\ SetObstacleFeatureValues cfg_online obstacle_with_candidates !! 12%nat
     = Some 0.
Proof.
  destruct (@single_sample_rates_zero Q Q_ops cfg_online
              obstacle_with_candidates)
    as (_ & _ & Hacc & Hjerk & _).
  - reflexivity.
  - reflexivity.
  - split; [exact Hacc|exact Hjerk].
Defined.

(** X16 at one entry ahead and one behind: the forward neighbour is
    the default or one of the entries with non-negative s. *)
Lemma nearest_neighbours_witness :
  let fb := nearest_obstacles cfg_online (nearby_obstacle seq_neighbours) in
  fst fb = init_forward cfg_online
  \/ exists n, n ∈ nearby_obstacle seq_neighbours
               /\ dlt (no_s n) d0 = false /\ fst fb = take_over n.
Proof.
  destruct (@nearest_neighbours_selected Q Q_ops cfg_online
              Qltb_irrefl Qltb_trans (nearby_obstacle seq_neighbours))
    as (Hsel & _).
  exact Hsel.
Defined.

(** X17 at the three lane points in two segments and in one segment
    followed by a point without position. *)
Lemma lane_block_regrouped_witness :
  SetLaneFeatureValues cfg_online obstacle_with_candidates seq_three_points
  = SetLaneFeatureValues cfg_online obstacle_with_candidates
                         seq_three_points_regrouped.
Proof.
  apply (@lane_block_depends_on_leading_points Q Q_ops cfg_online
           obstacle_with_candidates seq_three_points
           seq_three_points_regrouped).
  reflexivity.
Defined.

(** X21 at three candidates: a second run returns the same obstacle and
    the same two model runs. *)
Lemma evaluate_again_witness :
  exists o' calls,
    Evaluate cfg_online container go_model cutin_model
             obstacle_with_candidates [] = Some (o', calls, [])
    /\ length calls = 2%nat
    /\ Evaluate cfg_online container go_model cutin_model o' []
       = Some (o', calls, []).
Proof.
  eexists _, _. split; [vm_compute; reflexivity|]. split; [reflexivity|].
  apply (@evaluate_online_idempotent Q Q_ops cfg_online container go_model
           cutin_model obstacle_with_candidates _ [] _ [] []).
  - reflexivity.
  - vm_compute. reflexivity.
Defined.

(** X22 at an observation whose lane has no lane graph, offline. *)
Lemma evaluate_skips_witness :
  Evaluate cfg_offline container go_model cutin_model obstacle_two_frames []
  = Some (obstacle_two_frames, [], []).
Proof.
  apply (@evaluate_skips_obstacle_without_candidates Q Q_ops cfg_offline
           container go_model cutin_model obstacle_two_frames []).
  right. reflexivity.
Defined.

(** X23 at three candidates, offline. *)
Lemma evaluate_frame_witness :
  exists o' out,
    Evaluate cfg_offline container go_model cutin_model
             obstacle_with_candidates [] = Some (o', [], out)
    /\ id o' = 1%Z /\ older_features o' = []
    /\ length (lane_sequences o') = 3%nat
    /\ out = [latest_feature o'].
Proof.
  eexists _, _. split; [vm_compute; reflexivity|].
  match goal with
  | |- id ?o' = _ /\ _ /\ _ /\ ?out = _ =>
      destruct (@evaluate_frame Q Q_ops cfg_offline container go_model
                  cutin_model obstacle_with_candidates o' [] [] out)
        as (Hid & Hold & _ & Hlen & _ & Hout)
  end.
  - vm_compute. reflexivity.
  - split; [exact Hid|]. split; [exact Hold|]. split; [exact Hlen|].
    destruct Hout as [Hout|[_ Hout]]; [discriminate Hout|exact Hout].
Defined.

(** X24 at an observation without position and three candidates. *)
Lemma no_position_witness :
  exists o' out,
    Evaluate cfg_online container go_model cutin_model
             obstacle_no_position [] = Some (o', [], out)
    /\ lane_sequences o'
       = map (fun s => set_probability s d0) three_candidates.
Proof.
  apply (@no_position_zeroes_candidates Q Q_ops cfg_online container
           go_model cutin_model obstacle_no_position []).
  - reflexivity.
  - vm_compute. lia.
  - reflexivity.
  - apply container_resolves.
Defined.

(** X25 at three candidates, online. *)
Lemma model_runs_witness :
  exists o' calls,
    Evaluate cfg_online container go_model cutin_model
             obstacle_with_candidates [] = Some (o', calls, [])
    /\ forall c, c ∈ calls ->
         exists s,
           three_candidates !! call_sequence c = Some s
           /\ call_model c
              = (if vehicle_on_lane s then GoModel else CutinModel)
           /\ filter (fun x => call_sequence x = call_sequence c) calls = [c].
Proof.
  eexists _, _. split; [vm_compute; reflexivity|].
  eapply (@model_runs_one_per_candidate Q Q_ops cfg_online container
            go_model cutin_model obstacle_with_candidates _ [] _ []).
  vm_compute. reflexivity.
Defined.
End FurtherChecks.

Module RealChecks.
Import RealDouble RealScenario.
Local Open Scope R_scope.


End RealChecks.

